(** * tiny-sql-expert: the validation and retry controller of [app.py]

    A shallow embedding of the validator ([validate_sql] and its helper
    checks), of the extraction step and of the attempt loop of [run],
    followed by the properties stated about them.

    Strings.  A Python [str] is modelled as a list of characters, a
    character being a code point below 256 (Rocq's [ascii] read as
    Latin-1).  The character classes used by [str.strip], [str.lower],
    [str.splitlines] and by the regular expression class [\w] are the
    Unicode ones restricted to that range.

    Exceptions.  Operations that can raise in Python (subscripting a
    dict or a list, calls into the external libraries) return a
    [result]; [try ... except Exception] is [try_except]. *)

From Stdlib Require Import Ascii String List NArith ZArith Bool Arith Lia Permutation.
Import ListNotations.

Local Open Scope list_scope.
Local Open Scope bool_scope.

(* ================================================================== *)
(** ** Characters and strings *)

Definition str := list ascii.

(** [py "abc"] is the Python literal ["abc"]. *)
Definition py (s : string) : str := list_ascii_of_string s.

Definition ord (c : ascii) : N := N_of_ascii c.

Definition in_range (lo hi : N) (c : ascii) : bool :=
  (N.leb lo (ord c)) && (N.leb (ord c) hi).

(** Whitespace as [str.strip()] and [str.isspace()] see it:
    TAB..CR, FS..US, space, NEL (0x85) and NBSP (0xA0). *)
Definition isspace (c : ascii) : bool :=
  in_range 9 13 c || in_range 28 32 c || N.eqb (ord c) 133 || N.eqb (ord c) 160.

(** The class [\w] of [re] on [str] patterns: alphanumeric or underscore. *)
Definition isword (c : ascii) : bool :=
  in_range 48 57 c || in_range 65 90 c || N.eqb (ord c) 95 || in_range 97 122 c
  || N.eqb (ord c) 170 || in_range 178 179 c || N.eqb (ord c) 181
  || in_range 185 186 c || in_range 188 190 c
  || in_range 192 214 c || in_range 216 246 c || in_range 248 255 c.

(** Line boundaries of [str.splitlines()]: LF, VT, FF, CR, FS, GS, RS, NEL
    (CR LF is handled in [splitlines]). *)
Definition islinebreak (c : ascii) : bool :=
  in_range 10 13 c || in_range 28 30 c || N.eqb (ord c) 133.

Definition lower_char (c : ascii) : ascii :=
  if in_range 65 90 c || in_range 192 214 c || in_range 216 222 c
  then ascii_of_N (ord c + 32) else c.

(** [s.lower()].  On code points below 256 it maps character to
    character, so it keeps lengths and positions.  Beyond that range it
    need not (U+0130 becomes two characters); the properties that
    depend on the difference are stated on the lowered text, and
    [Unicode] below models the scan with a string-valued [lower]. *)
Definition lower (s : str) : str := map lower_char s.

Definition is_empty {A : Type} (l : list A) : bool :=
  match l with [] => true | _ :: _ => false end.

Fixpoint lstrip (s : str) : str :=
  match s with
  | [] => []
  | c :: s' => if isspace c then lstrip s' else s
  end.

Definition rstrip (s : str) : str := rev (lstrip (rev s)).

Definition strip (s : str) : str := rstrip (lstrip s).

(** [s.count(c)] for a one-character needle. *)
Fixpoint count (c : ascii) (s : str) : nat :=
  match s with
  | [] => 0
  | x :: s' => (if Ascii.eqb x c then 1 else 0) + count c s'
  end.

Fixpoint startswith (s p : str) {struct p} : bool :=
  match p, s with
  | [], _ => true
  | _ :: _, [] => false
  | a :: p', b :: s' => Ascii.eqb a b && startswith s' p'
  end.

Definition endswith (s p : str) : bool := startswith (rev s) (rev p).

(** [sub in s] *)
Fixpoint contains (sub s : str) : bool :=
  startswith s sub ||
  match s with
  | [] => false
  | _ :: s' => contains sub s'
  end.

(** [ch in chars] for a single character [ch]. *)
Definition char_in (ch : ascii) (chars : str) : bool :=
  existsb (Ascii.eqb ch) chars.

(** [sep.join(parts)] *)
Fixpoint join (sep : str) (parts : list str) : str :=
  match parts with
  | [] => []
  | [p] => p
  | p :: rest => p ++ sep ++ join sep rest
  end.

(** [s.splitlines()]: [cur] is the current line, reversed. *)
Fixpoint splitlines_from (cur : str) (s : str) : list str :=
  match s with
  | [] => if is_empty cur then [] else [rev cur]
  | c :: s' =>
      if Ascii.eqb c "013"%char then
        match s' with
        | c' :: s'' =>
            if Ascii.eqb c' "010"%char
            then rev cur :: splitlines_from [] s''
            else rev cur :: splitlines_from [] s'
        | [] => rev cur :: splitlines_from [] s'
        end
      else if islinebreak c then rev cur :: splitlines_from [] s'
      else splitlines_from (c :: cur) s'
  end.

Definition splitlines (s : str) : list str := splitlines_from [] s.

(* ================================================================== *)
(** ** Exceptions *)

Inductive exn : Type :=
| KeyError
| IndexError
| Exception (msg : str).

Inductive result (A : Type) : Type :=
| Return (a : A)
| Raise (e : exn).

Arguments Return {A} a.
Arguments Raise {A} e.

Definition bind {A B : Type} (c : result A) (k : A -> result B) : result B :=
  match c with
  | Return a => k a
  | Raise e => Raise e
  end.

Notation "x <- c ;; k" := (bind c (fun x => k))
  (at level 61, c at next level, right associativity).

(** [try: c  except Exception: h] *)
Definition try_except {A : Type} (c : result A) (h : exn -> result A) : result A :=
  match c with
  | Return a => Return a
  | Raise e => h e
  end.

(** [d[k]] on a dict given by its items. *)
Fixpoint getitem (d : list (ascii * ascii)) (k : ascii) : result ascii :=
  match d with
  | [] => Raise KeyError
  | (k', v) :: d' => if Ascii.eqb k k' then Return v else getitem d' k
  end.

(* ================================================================== *)
(** ** Validation functions *)

(** The list [stack] of [parentheses_match] is kept with its last
    element (the one [stack[-1]] reads and [stack.pop()] removes) at the
    head. *)
Definition stack_top (stack : list ascii) : result ascii :=
  match stack with
  | [] => Raise IndexError
  | t :: _ => Return t
  end.

Definition stack_pop (stack : list ascii) : result (list ascii) :=
  match stack with
  | [] => Raise IndexError
  | _ :: st => Return st
  end.

Definition pairs : list (ascii * ascii) :=
  [(")"%char, "("%char); ("]"%char, "["%char); ("}"%char, "{"%char)].

Fixpoint parentheses_loop (s : str) (stack : list ascii) : result bool :=
  match s with
  | [] => Return (is_empty stack)
  | ch :: s' =>
      if char_in ch (py "([{") then parentheses_loop s' (ch :: stack)
      else if char_in ch (py ")]}") then
        if is_empty stack then Return false
        else
          t <- stack_top stack ;;
          p <- getitem pairs ch ;;
          if negb (Ascii.eqb t p) then Return false
          else
            st <- stack_pop stack ;;
            parentheses_loop s' st
      else parentheses_loop s' stack
  end.

Definition parentheses_match (s : str) : result bool :=
  parentheses_loop s [].

Definition quotes_match (s : str) : bool :=
  Nat.eqb (count "'"%char s mod 2) 0 && Nat.eqb (count "034"%char s mod 2) 0.

(* ------------------------------------------------------------------ *)
(** *** Regular expressions of the source

    [\b] holds between two neighbouring positions when exactly one of
    them is a word character; outside the text counts as a non-word. *)

Definition isword_at (c : option ascii) : bool :=
  match c with
  | Some x => isword x
  | None => false
  end.

Definition boundary (before after : option ascii) : bool :=
  xorb (isword_at before) (isword_at after).

(** Does [\b kw \b] match with [s] the text from the current position
    and [prev] the character before it?  ([re.escape(kw)] matches [kw]
    literally.) *)
Definition word_match_at (kw : str) (prev : option ascii) (s : str) : bool :=
  boundary prev (hd_error s)
  && startswith s kw
  && boundary (last (map Some kw) prev) (hd_error (skipn (length kw) s)).

Fixpoint re_search_word_from (kw : str) (prev : option ascii) (s : str) : bool :=
  word_match_at kw prev s ||
  match s with
  | [] => false
  | c :: s' => re_search_word_from kw (Some c) s'
  end.

(** [re.search(r"\b" + re.escape(kw) + r"\b", s)] as a truth value. *)
Definition re_search_word (kw s : str) : bool :=
  re_search_word_from kw None s.

(** The shortest prefix of [s] that ends with a semicolon: what [.*?;]
    consumes under [(?s)]. *)
Fixpoint upto_semicolon (s : str) : option str :=
  match s with
  | [] => None
  | c :: s' =>
      if Ascii.eqb c ";"%char then Some [c]
      else match upto_semicolon s' with
           | Some m => Some (c :: m)
           | None => None
           end
  end.

(** [select\b.*?;] anchored at the start of [s], ignoring case.  On
    code points below 256 the six letters match exactly the characters
    that [lower] sends to them; [re.IGNORECASE] also lets [s] match
    U+017F, which is outside the alphabet, so properties of a match are
    stated with [select_match_at] itself and not with [lower]. *)
Definition select_match_at (s : str) : option str :=
  if startswith (lower s) (py "select")
  then
    if boundary (nth_error s 5) (nth_error s 6)
    then match upto_semicolon (skipn 6 s) with
         | Some m => Some (firstn 6 s ++ m)
         | None => None
         end
    else None
  else None.

(** [re.search(r"(?s)(select\b.*?;)", s, flags=re.IGNORECASE)]:
    group 1 of the leftmost match, if any. *)
Fixpoint re_search_select (s : str) : option str :=
  match select_match_at s with
  | Some m => Some m
  | None =>
      match s with
      | [] => None
      | _ :: s' => re_search_select s'
      end
  end.

(* ------------------------------------------------------------------ *)
(** *** Schema and denylist *)

Definition SCHEMA : list (str * list str) :=
  [ (py "Users", map py ["user_id"; "name"; "email"]%string);
    (py "Orders",
      map py ["order_id"; "user_id"; "product_id"; "quantity"; "order_date"]%string);
    (py "Products", map py ["product_id"; "name"; "price"]%string) ].

(** The elements of the set [ALLOWED_TABLES]. *)
Definition ALLOWED_TABLES : list str := map (fun t => lower (fst t)) SCHEMA.

(** The elements of the set [FORBIDDEN_WORDS]. *)
Definition FORBIDDEN_WORDS : list str :=
  map py ["drop"; "delete"; "truncate"; "update"; "insert"; "alter";
          "create"; "grant"; "revoke"]%string.

(** What the external library [sqlparse] gives for one statement: the
    result of [token_first(skip_cm=True)] ([None] when there is no
    token) and the attribute [normalized]. *)
Record Statement : Type := {
  token_first : result (option str);
  normalized : result str
}.

Definition getitem0 {A : Type} (l : list A) : result A :=
  match l with
  | [] => Raise IndexError
  | x :: _ => Return x
  end.

Definition msg_empty : str := py "Empty SQL.".
Definition msg_multiple : str :=
  py "Multiple statements detected (more than 1 semicolon).".
Definition msg_semicolon : str := py "SQL should end with a semicolon ';'.".
Definition msg_brackets : str := py "Mismatched parentheses/brackets.".
Definition msg_quotes : str := py "Mismatched quotes.".
Definition msg_forbidden (forb : list str) : str :=
  py "Forbidden keyword(s) present: " ++ join (py ", ") forb.
Definition msg_select_from : str := py "Missing SELECT and/or FROM clause.".
Definition msg_tables : str :=
  py "No known schema tables referenced (Users, Orders, Products).".
Definition msg_sqlparse : str :=
  py "sqlparse could not detect a valid SELECT statement (parsing error).".

Section Validator.

(** Python does not fix the order in which a set is iterated: the two
    sets are iterated in the order of [forbidden_iter] and
    [tables_iter].  A property that depends on what the sets hold
    assumes that these lists are permutations of [FORBIDDEN_WORDS] and
    of [ALLOWED_TABLES]. *)
Variable forbidden_iter : list str.
Variable tables_iter : list str.

(** [sqlparse.parse], external. *)
Variable sqlparse_parse : str -> result (list Statement).

Definition contains_forbidden (sql : str) : list str :=
  let low := lower sql in
  filter (fun kw => re_search_word kw low) forbidden_iter.

Definition has_select_from (sql : str) : bool :=
  let low := lower sql in
  contains (py "select") low && contains (py "from") low.

Definition uses_known_tables (sql : str) : bool * list str :=
  let low := lower sql in
  let used := filter (fun t => re_search_word t low) tables_iter in
  (Nat.ltb 0 (length used), used).

Definition basic_sqlparse_ok (sql : str) : result bool :=
  try_except
    (parsed <- sqlparse_parse sql ;;
     if is_empty parsed then Return false
     else
       stmt <- getitem0 parsed ;;
       first_token <- token_first stmt ;;
       match first_token with
       | None => Return false
       | Some _ =>
           n <- normalized stmt ;;
           Return (startswith (lower (strip n)) (py "select"))
       end)
    (fun _ => Return false).

(** [errors.append(msg)] under a condition. *)
Definition append_if (cond : bool) (errors : list str) (msg : str) : list str :=
  if cond then errors ++ [msg] else errors.

Definition validate_sql (sql : str) : result (bool * list str) :=
  let errors := [] in
  let trimmed := strip sql in
  if is_empty trimmed then
    let errors := errors ++ [msg_empty] in
    Return (false, errors)
  else
    let errors := append_if (Nat.ltb 1 (count ";"%char trimmed)) errors msg_multiple in
    let errors := append_if (negb (endswith trimmed (py ";"))) errors msg_semicolon in
    balanced <- parentheses_match trimmed ;;
    let errors := append_if (negb balanced) errors msg_brackets in
    let errors := append_if (negb (quotes_match trimmed)) errors msg_quotes in
    let forb := contains_forbidden trimmed in
    let errors := append_if (negb (is_empty forb)) errors (msg_forbidden forb) in
    let errors := append_if (negb (has_select_from trimmed)) errors msg_select_from in
    let '(known, used_tables) := uses_known_tables trimmed in
    let errors := append_if (negb known) errors msg_tables in
    parse_ok <- basic_sqlparse_ok trimmed ;;
    let errors := append_if (negb parse_ok) errors msg_sqlparse in
    Return (Nat.eqb (length errors) 0, errors).

End Validator.

(* ================================================================== *)
(** ** Prompt template

    [BASE_PROMPT] has three replacement fields and no other brace;
    [BASE_PROMPT_format] is [BASE_PROMPT.format(question=...,
    previous_sql=..., error_hint=...)], the four literal parts of the
    template around the three values. *)

Definition BASE_PROMPT_head : str := py "
You are an SQL generator assistant. Use ONLY the schema below and produce RAW SQL as the only output (no explanation).

Schema:
TABLE Users(user_id, name, email)
TABLE Orders(order_id, user_id, product_id, quantity, order_date)
TABLE Products(product_id, name, price)

Rules:
1) Output ONLY valid SQL (single statement) and nothing else.
2) Use JOINs when necessary to combine tables.
3) Do NOT use forbidden commands: DROP, DELETE, TRUNCATE, UPDATE, INSERT, ALTER, CREATE.
4) Always use table names exactly as in the schema (Users, Orders, Products).
5) Keep queries concise and produce valid SQL statements ending with a semicolon.

Examples:
Q: List all users who placed an order.
A: SELECT u.name, u.email
   FROM Users u
   JOIN Orders o ON u.user_id = o.user_id;

Q: Show order id, user name and product name for all orders.
A: SELECT o.order_id, u.name AS user_name, p.name AS product_name
   FROM Orders o
   JOIN Users u ON o.user_id = u.user_id
   JOIN Products p ON o.product_id = p.product_id;

Q: What are the top 5 most expensive products?
A: SELECT name, price
   FROM Products
   ORDER BY price DESC
   LIMIT 5;

Now generate SQL for the question below. Output ONLY the SQL statement.

QUESTION:
".

Definition BASE_PROMPT_previous : str := py "

PREVIOUS_SQL:
".

Definition BASE_PROMPT_hint : str := py "

ERROR_HINT:
".

Definition BASE_PROMPT_tail : str := py "
".

Definition BASE_PROMPT_format (question previous_sql error_hint : str) : str :=
  BASE_PROMPT_head ++ question ++ BASE_PROMPT_previous ++ previous_sql
  ++ BASE_PROMPT_hint ++ error_hint ++ BASE_PROMPT_tail.

(* ================================================================== *)
(** ** Generation and the attempt loop

    [log] (standard error) and [time.sleep] have no part in what [run]
    computes and are left out; the line given to [print] is the field
    [output_sql] of the result.  [str(candidate_sql)] on a [str] is the
    identity. *)

(** What the text-generation pipeline returns: a list of dicts, each
    with or without the key [generated_text], or some other object of
    which only [str(out)] is used. *)
Inductive pipeline_out : Type :=
| OutList (items : list (option str))
| OutOther (repr : str).

(** One iteration of the loop of [run], as written to the log. *)
Record Attempt : Type := {
  attempt : Z;
  prompt : str;
  candidate : str;
  candidate_sql : str;
  ok : bool;
  errors : list str
}.

(** What [run] leaves behind: the attempts made, whether [final_sql]
    was still [None] after the loop, [final_sql] as set by then, the
    line printed on standard output and whether the final warning was
    logged. *)
Record RunResult : Type := {
  attempts : list Attempt;
  exhausted : bool;
  final_sql : str;
  output_sql : str;
  warned : bool
}.

(** [range(lo, hi)] *)
Definition range (lo hi : Z) : list Z :=
  map (fun i => (lo + Z.of_nat i)%Z) (seq 0 (Z.to_nat (hi - lo))).

(** Lines 233-240 of [run]: the first semicolon-terminated statement,
    or else the text collapsed to one line with a semicolon at its end. *)
Definition extract_candidate_sql (candidate : str) : str :=
  match re_search_select candidate with
  | Some m => strip m
  | None =>
      let lines := splitlines (strip candidate) in
      let candidate_sql :=
        join (py " ")
             (map strip (filter (fun line => negb (is_empty (strip line))) lines)) in
      if negb (endswith candidate_sql (py ";"))
      then candidate_sql ++ py ";"
      else candidate_sql
  end.

Section Run.

Variable forbidden_iter : list str.
Variable tables_iter : list str.
Variable sqlparse_parse : str -> result (list Statement).

(** The generator object, with whatever state it carries, and the two
    external operations on it: loading ([make_generator]) and one call
    of the pipeline ([gen], the sampling parameters left inside it). *)
Variable G : Type.
Variable make_generator : str -> result G.
Variable gen : G -> str -> G * result pipeline_out.

Definition generate_sql_from_model (g : G) (prompt : str) : G * result str :=
  let '(g', out) := gen g prompt in
  (g',
   o <- out ;;
   let text :=
     match o with
     | OutList (item :: _) =>
         match item with
         | Some t => t
         | None => []
         end
     | OutList [] => py "[]"
     | OutOther repr => repr
     end in
   Return (strip text)).

(** The [for] loop of [run] over the attempt numbers still to do.  It
    returns the log of attempts, [previous_sql] and [final_sql] (which
    is [None] unless the loop ended by [break]). *)
Fixpoint attempt_loop (question : str) (todo : list Z) (g : G)
         (previous_sql error_hint : str) (done : list Attempt)
  : result (list Attempt * str * option str) :=
  match todo with
  | [] => Return (done, previous_sql, None)
  | k :: todo' =>
      let prompt := BASE_PROMPT_format question previous_sql error_hint in
      let '(g', generated) := generate_sql_from_model g prompt in
      candidate <- try_except generated (fun _ => Return []) ;;
      let candidate_sql := extract_candidate_sql candidate in
      verdict <- validate_sql forbidden_iter tables_iter sqlparse_parse candidate_sql ;;
      let '(ok, errors) := verdict in
      let this :=
        {| attempt := k; prompt := prompt; candidate := candidate;
           candidate_sql := candidate_sql; ok := ok; errors := errors |} in
      if ok then Return (done ++ [this], previous_sql, Some candidate_sql)
      else attempt_loop question todo' g' candidate_sql
                        (join (py " | ") errors) (done ++ [this])
  end.

Definition run (question model_name : str) (max_retries : Z) : result RunResult :=
  g <- make_generator model_name ;;
  looped <- attempt_loop question (range 1 (max_retries + 1)) g [] [] [] ;;
  let '(made, previous_sql, final) := looped in
  let final_sql :=
    match final with
    | Some f => f
    | None => if is_empty previous_sql then [] else previous_sql
    end in
  let output_sql :=
    match re_search_select final_sql with
    | Some m => strip m
    | None =>
        let output_sql := strip final_sql in
        if negb (is_empty output_sql) && negb (endswith output_sql (py ";"))
        then output_sql ++ py ";"
        else output_sql
    end in
  verdict <- validate_sql forbidden_iter tables_iter sqlparse_parse output_sql ;;
  Return {| attempts := made;
            exhausted := match final with None => true | Some _ => false end;
            final_sql := final_sql;
            output_sql := output_sql;
            warned := negb (fst verdict) |}.

End Run.

(* ================================================================== *)
(** * Vocabulary of the properties *)

(** ** The error list of [validate_sql] as one expression *)

Definition one_if (cond : bool) (msg : str) : list str :=
  if cond then [msg] else [].

(** The errors collected for a non-empty [trimmed], given the verdicts
    [balanced] of the bracket check and [parse_ok] of the parse check. *)
Definition collected (fi ti : list str) (trimmed : str) (balanced parse_ok : bool)
  : list str :=
  one_if (Nat.ltb 1 (count ";"%char trimmed)) msg_multiple
  ++ one_if (negb (endswith trimmed (py ";"))) msg_semicolon
  ++ one_if (negb balanced) msg_brackets
  ++ one_if (negb (quotes_match trimmed)) msg_quotes
  ++ one_if (negb (is_empty (contains_forbidden fi trimmed)))
            (msg_forbidden (contains_forbidden fi trimmed))
  ++ one_if (negb (has_select_from trimmed)) msg_select_from
  ++ one_if (negb (fst (uses_known_tables ti trimmed))) msg_tables
  ++ one_if (negb parse_ok) msg_sqlparse.

(** ** A parse that finds a SELECT statement *)

(** The external parser gives at least one statement for [sql], the
    first statement has a first token, and its normalized text, trimmed
    and lowered, starts with [select]; none of the calls raises. *)
Definition parse_finds_select
           (parse : str -> result (list Statement)) (sql : str) : Prop :=
  exists stmt rest tok n,
    parse sql = Return (stmt :: rest)
    /\ token_first stmt = Return (Some tok)
    /\ normalized stmt = Return n
    /\ startswith (lower (strip n)) (py "select") = true.

(** ** Well-bracketed texts *)

(** Well-bracketed texts: every closer closes the nearest opener still
    open, of its own kind, and no opener stays open.  [pairs] relates a
    closer to its opener. *)
Inductive balanced : str -> Prop :=
| balanced_nil : balanced []
| balanced_other c s :
    char_in c (py "([{") = false ->
    char_in c (py ")]}") = false ->
    balanced s ->
    balanced (c :: s)
| balanced_pair o c s t :
    In (c, o) pairs ->
    balanced s ->
    balanced t ->
    balanced (o :: s ++ c :: t).

(** [closes stack s]: [s] closes the openers of [stack], innermost
    first, and is balanced in between and after. *)
Fixpoint closes (stack : list ascii) (s : str) : Prop :=
  match stack with
  | [] => balanced s
  | o :: st =>
      exists s1 c s2,
        s = s1 ++ c :: s2 /\ In (c, o) pairs /\ balanced s1 /\ closes st s2
  end.

(** ** Whole-word occurrences *)

(** [kw] occurs in [sql] as a whole word, in any letter case: some
    stretch of [sql] is [kw] up to case, with no word character right
    before it and none right after it. *)
Definition occurs_as_whole_word (kw sql : str) : Prop :=
  exists pre mid post,
    sql = pre ++ mid ++ post
    /\ lower mid = kw
    /\ isword_at (last (map Some pre) None) = false
    /\ isword_at (hd_error post) = false.

(** ** Shapes of extracted candidates *)

(** Texts that start with a non-blank character and end with a
    semicolon. *)
Definition tidy (y : str) : Prop :=
  (exists a r, y = a :: r /\ isspace a = false)
  /\ (exists x, y = x ++ [";"%char]).

(** The fallback of the extraction step, in two parts. *)
Definition nonblank (line : str) : bool := negb (is_empty (strip line)).

Definition collapsed (raw : str) : str :=
  join (py " ") (map strip (filter nonblank (splitlines (strip raw)))).

Definition with_semicolon (c : str) : str :=
  if negb (endswith c (py ";")) then c ++ py ";" else c.

Definition one_line (s : str) : Prop := Forall (fun c => islinebreak c = false) s.

(** ** What the loop leaves behind *)

(** [final_sql] and the printed line, from what the loop leaves. *)
Definition final_of (final : option str) (previous_sql : str) : str :=
  match final with
  | Some f => f
  | None => if is_empty previous_sql then [] else previous_sql
  end.

Definition output_of (final_sql : str) : str :=
  match re_search_select final_sql with
  | Some m => strip m
  | None =>
      let output_sql := strip final_sql in
      if negb (is_empty output_sql) && negb (endswith output_sql (py ";"))
      then output_sql ++ py ";"
      else output_sql
  end.

Section LoopVocabulary.

Variable forbidden_iter : list str.
Variable tables_iter : list str.
Variable sqlparse_parse : str -> result (list Statement).
Variable G : Type.
Variable gen : G -> str -> G * result pipeline_out.

(** One logged attempt is consistent with the code that made it: the
    candidate is what the generator gave for the prompt (empty when it
    raised), the statement is extracted from it and the verdict is the
    validator's. *)
Definition attempt_ok (a : Attempt) : Prop :=
  (exists g,
      try_except (snd (generate_sql_from_model G gen g (prompt a)))
                 (fun _ => Return [])
      = Return (candidate a))
  /\ candidate_sql a = extract_candidate_sql (candidate a)
  /\ validate_sql forbidden_iter tables_iter sqlparse_parse (candidate_sql a)
     = Return (ok a, errors a).

(** What the loop leaves after running over [todo] from [previous_sql]. *)
Definition loop_post (todo : list Z) (previous_sql : str)
           (made : list Attempt) (previous_sql' : str) (final : option str) : Prop :=
  length made <= length todo
  /\ (todo <> [] -> made <> [])
  /\ map attempt made = firstn (length made) todo
  /\ Forall attempt_ok made
  /\ match final with
     | None =>
         length made = length todo
         /\ Forall (fun a => ok a = false) made
         /\ previous_sql' = last (map candidate_sql made) previous_sql
     | Some f =>
         exists init a,
           made = init ++ [a]
           /\ ok a = true
           /\ f = candidate_sql a
           /\ Forall (fun a => ok a = false) init
     end.

End LoopVocabulary.

(** ** Stand-ins for the external collaborators, for concrete runs *)

(** A parser that sees the whole text as one statement. *)
Definition parse_whole (sql : str) : result (list Statement) :=
  Return [ {| token_first := Return (Some sql); normalized := Return sql |} ].

(** A parser that throws on every input. *)
Definition parse_raising (_ : str) : result (list Statement) :=
  Raise (Exception (py "parse failure")).

(** A parser that finds no statement, and one whose statement throws
    when asked for its first token. *)
Definition parse_nothing (_ : str) : result (list Statement) := Return [].

Definition parse_broken_token (sql : str) : result (list Statement) :=
  Return [ {| token_first := Raise (Exception (py "no token"));
              normalized := Return sql |} ].

(** Stand-ins for the generator: the state counts the calls made. *)
Definition load_ok (_ : str) : result nat := Return 0.

Definition gen_raising (calls : nat) (_ : str) : nat * result pipeline_out :=
  (S calls, Raise (Exception (py "backend failure"))).

Definition gen_drop (calls : nat) (_ : str) : nat * result pipeline_out :=
  (S calls, Return (OutList [Some (py "DROP TABLE Users;")])).

(** ** Order of the error messages *)

(** [subseq l1 l2]: [l1] is [l2] with some elements left out. *)
Inductive subseq {A : Type} : list A -> list A -> Prop :=
| subseq_nil : subseq [] []
| subseq_skip x l1 l2 : subseq l1 l2 -> subseq l1 (x :: l2)
| subseq_take x l1 l2 : subseq l1 l2 -> subseq (x :: l1) (x :: l2).

(** The eight messages of the checks that follow the emptiness check,
    in the order of the checks; [forb] is what the keyword scan found. *)
Definition all_messages (forb : list str) : list str :=
  [ msg_multiple; msg_semicolon; msg_brackets; msg_quotes;
    msg_forbidden forb; msg_select_from; msg_tables; msg_sqlparse ].

(** [kw] occurs in [s] as a word: letter for letter, with no word
    character right before it and none right after it. *)
Definition occurs_as_word (kw s : str) : Prop :=
  exists pre post,
    s = pre ++ kw ++ post
    /\ isword_at (last (map Some pre) None) = false
    /\ isword_at (hd_error post) = false.

(** [sub] occurs in [s], in any letter case. *)
Definition occurs_ignoring_case (sub s : str) : Prop :=
  exists pre mid post, s = pre ++ mid ++ post /\ lower mid = sub.

(** ** Text without its whitespace *)

Definition nowhite (s : str) : str := filter (fun c => negb (isspace c)) s.

(* ================================================================== *)
(** ** Loading the generator and the entry point

    The library calls of [make_generator] act on the process: [W] is
    what they can change, [set_seed] and [pipeline] are the two calls,
    each of which can raise.  [main] is the block under
    [if __name__ == "__main__"], from the parsed arguments on: it
    returns the exit status and the texts written on standard output by
    the calls of [print] that completed.  The one [print] of [run] can
    raise like any write; it comes after the loop and nothing after it
    in [run] raises, so [main] applies it to the [output_sql] of a [run]
    that returned.  [sys.exit(1)] is the status 1, a normal end the
    status 0.  As in [run], the writes of [log] on standard error are
    left out: [make_generator] and [main] describe the executions in
    which they complete. *)

Section Startup.

Variable forbidden_iter : list str.
Variable tables_iter : list str.
Variable sqlparse_parse : str -> result (list Statement).
Variable G : Type.
Variable W : Type.
Variable set_seed : W -> Z -> W * result unit.
Variable pipeline : W -> str -> W * result G.
Variable gen : G -> str -> G * result pipeline_out.
Variable print : str -> result unit.

Definition make_generator (w : W) (model_name : str) (seed : Z) : W * result G :=
  let '(w0, seeded) := set_seed w seed in
  match seeded with
  | Raise e => (w0, Raise e)
  | Return _ =>
      let '(w1, first) := pipeline w0 model_name in
      match first with
      | Return g => (w1, Return g)
      | Raise _ =>
          let '(w2, second) := pipeline w1 model_name in
          match second with
          | Return g => (w2, Return g)
          | Raise e2 => (w2, Raise e2)
          end
      end
  end.

(** The arguments as [parse_args] returns them ([temp] stays inside
    [gen]). *)
Record Args : Type := {
  arg_question : str;
  arg_model : str;
  arg_retries : Z
}.

Definition main (w : W) (args : Args) : Z * list str :=
  match
    run forbidden_iter tables_iter sqlparse_parse G
        (fun model_name => snd (make_generator w model_name 42)) gen
        (arg_question args) (arg_model args) (arg_retries args)
  with
  | Raise _ => (1%Z, [])
  | Return r =>
      match print (output_sql r) with
      | Return _ => (0%Z, [output_sql r ++ ["010"%char]])
      | Raise _ => (1%Z, [])
      end
  end.

End Startup.

(** ** Prompts along the loop *)

(** Each attempt of [made] was prompted with the candidate and the
    joined errors of the attempt before it, the first one with
    [previous_sql] and [error_hint]. *)
Fixpoint fed_back (question previous_sql error_hint : str) (made : list Attempt)
  : Prop :=
  match made with
  | [] => True
  | a :: rest =>
      prompt a = BASE_PROMPT_format question previous_sql error_hint
      /\ fed_back question (candidate_sql a) (join (py " | ") (errors a)) rest
  end.

(** A generator that answers with the first example of the prompt. *)
Definition gen_example (calls : nat) (_ : str) : nat * result pipeline_out :=
  (S calls,
   Return (OutList [Some (py "SELECT u.name, u.email
   FROM Users u
   JOIN Orders o ON u.user_id = o.user_id;
")])).

(** Stand-ins for loading: the state counts the calls of [pipeline]; the
    first call fails and the second succeeds, or every call fails. *)
Definition seed_ok (calls : nat) (_ : Z) : nat * result unit := (calls, Return tt).

Definition pipeline_second_try (calls : nat) (_ : str) : nat * result nat :=
  (S calls,
   if Nat.eqb calls 0 then Raise (Exception (py "no device map")) else Return 0).

Definition pipeline_failing (calls : nat) (_ : str) : nat * result nat :=
  (S calls,
   if Nat.eqb calls 0 then Raise (Exception (py "first failure"))
   else Raise (Exception (py "second failure"))).

(** Standard output that takes every write, and one that is closed. *)
Definition print_ok (_ : str) : result unit := Return tt.

Definition print_closed (_ : str) : result unit :=
  Raise (Exception (py "broken pipe")).

(* ================================================================== *)
(** * The keyword scan on a wider alphabet

    [str.lower()] is not always one character for one character: it
    turns U+0130 (capital I with dot above) into [i] followed by U+0307
    (combining dot above), which is not a word character.  [Unicode]
    models [contains_forbidden] once more over the code points below
    256 and these two, with [lower] giving a string for each
    character. *)

Module Unicode.

Inductive uchar : Type :=
| Latin (a : ascii)
| CapitalIDot
| CombiningDot.

Definition ustr := list uchar.

(** A literal of code points below 256. *)
Definition upy (s : string) : ustr := map Latin (py s).

Definition uchar_eqb (a b : uchar) : bool :=
  match a, b with
  | Latin x, Latin y => Ascii.eqb x y
  | CapitalIDot, CapitalIDot => true
  | CombiningDot, CombiningDot => true
  | _, _ => false
  end.

(** [\w]: U+0130 is a letter, U+0307 is a combining mark. *)
Definition isword (c : uchar) : bool :=
  match c with
  | Latin a => isword a
  | CapitalIDot => true
  | CombiningDot => false
  end.

(** [c.lower()] *)
Definition lower_char (c : uchar) : ustr :=
  match c with
  | Latin a => [Latin (lower_char a)]
  | CapitalIDot => [Latin "i"%char; CombiningDot]
  | CombiningDot => [CombiningDot]
  end.

Definition lower (s : ustr) : ustr := flat_map lower_char s.

Fixpoint startswith (s p : ustr) {struct p} : bool :=
  match p, s with
  | [], _ => true
  | _ :: _, [] => false
  | a :: p', b :: s' => uchar_eqb a b && startswith s' p'
  end.

Definition isword_at (c : option uchar) : bool :=
  match c with
  | Some x => isword x
  | None => false
  end.

Definition boundary (before after : option uchar) : bool :=
  xorb (isword_at before) (isword_at after).

Definition word_match_at (kw : ustr) (prev : option uchar) (s : ustr) : bool :=
  boundary prev (hd_error s)
  && startswith s kw
  && boundary (last (map Some kw) prev) (hd_error (skipn (length kw) s)).

Fixpoint re_search_word_from (kw : ustr) (prev : option uchar) (s : ustr) : bool :=
  word_match_at kw prev s ||
  match s with
  | [] => false
  | c :: s' => re_search_word_from kw (Some c) s'
  end.

Definition re_search_word (kw s : ustr) : bool :=
  re_search_word_from kw None s.

Definition FORBIDDEN_WORDS : list ustr := map (map Latin) FORBIDDEN_WORDS.

Definition contains_forbidden (forbidden_iter : list ustr) (sql : ustr) : list ustr :=
  let low := lower sql in
  filter (fun kw => re_search_word kw low) forbidden_iter.

(** [kw] occurs in [sql] as a whole word, in any letter case. *)
Definition occurs_as_whole_word (kw sql : ustr) : Prop :=
  exists pre mid post,
    sql = pre ++ mid ++ post
    /\ lower mid = kw
    /\ isword_at (last (map Some pre) None) = false
    /\ isword_at (hd_error post) = false.

(** [kw] occurs in [s] as a word, letter for letter. *)
Definition occurs_as_word (kw s : ustr) : Prop :=
  exists pre post,
    s = pre ++ kw ++ post
    /\ isword_at (last (map Some pre) None) = false
    /\ isword_at (hd_error post) = false.

(** A search for a whole-word occurrence in any letter case, position
    by position and length by length. *)
Fixpoint ustr_eqb (a b : ustr) : bool :=
  match a, b with
  | [], [] => true
  | x :: a', y :: b' => uchar_eqb x y && ustr_eqb a' b'
  | _, _ => false
  end.

Definition occurs_at (kw : ustr) (prev : option uchar) (s : ustr) : bool :=
  negb (isword_at prev)
  && existsb (fun n => ustr_eqb (lower (firstn n s)) kw
                       && negb (isword_at (hd_error (skipn n s))))
             (seq 0 (S (length s))).

Fixpoint occurs_from (kw : ustr) (prev : option uchar) (s : ustr) : bool :=
  occurs_at kw prev s ||
  match s with
  | [] => false
  | c :: s' => occurs_from kw (Some c) s'
  end.

(** [SELECT xİdrop FROM Users;] *)
Definition dotted_text : ustr :=
  upy "SELECT x" ++ [CapitalIDot] ++ upy "drop FROM Users;".

End Unicode.

(* ================================================================== *)
(** * Properties *)

(** ** Characters *)

Ltac each_char c :=
  destruct c as [[] [] [] [] [] [] [] []]; try reflexivity; try discriminate.

Lemma isword_lower_char (c : ascii) : isword (lower_char c) = isword c.
Proof. each_char c. Qed.

Lemma isspace_lower_char (c : ascii) : isspace (lower_char c) = isspace c.
Proof. each_char c. Qed.

Lemma char_in_closers (ch : ascii) :
  char_in ch (py ")]}") = true ->
  ch = ")"%char \/ ch = "]"%char \/ ch = "}"%char.
Proof.
  unfold char_in, py; simpl.
  rewrite !orb_true_iff, !Ascii.eqb_eq. intuition discriminate.
Qed.

(** ** The checks never raise *)

Lemma parentheses_loop_returns (s : str) :
  forall stack, exists b, parentheses_loop s stack = Return b.
Proof.
  induction s as [|ch s IH]; intros stack; cbn [parentheses_loop].
  - eauto.
  - destruct (char_in ch (py "([{")); [apply IH|].
    destruct (char_in ch (py ")]}")) eqn:Hc; [|apply IH].
    destruct stack as [|t st]; cbn [is_empty stack_top stack_pop bind]; [eauto|].
    apply char_in_closers in Hc.
    destruct Hc as [-> | [-> | ->]]; cbn [getitem pairs Ascii.eqb Bool.eqb bind];
      match goal with |- context [negb ?b] => destruct b end;
      cbn [negb]; eauto.
Qed.

Lemma parentheses_match_returns (s : str) :
  exists b, parentheses_match s = Return b.
Proof. apply parentheses_loop_returns. Qed.

Lemma basic_sqlparse_ok_returns (parse : str -> result (list Statement)) (sql : str) :
  exists b, basic_sqlparse_ok parse sql = Return b.
Proof.
  unfold basic_sqlparse_ok.
  destruct (parse sql) as [parsed|e]; simpl; [|eauto].
  destruct parsed as [|stmt rest]; simpl; [eauto|].
  destruct (token_first stmt) as [[tok|]|e]; simpl; eauto.
  destruct (normalized stmt) as [n|e]; simpl; eauto.
Qed.

Lemma basic_sqlparse_ok_parser_raises
      (parse : str -> result (list Statement)) (sql : str) (e : exn) :
  parse sql = Raise e -> basic_sqlparse_ok parse sql = Return false.
Proof. intros H. unfold basic_sqlparse_ok. rewrite H. reflexivity. Qed.

(** ** The error list of [validate_sql] as one expression *)

Lemma append_if_one_if (cond : bool) (errors : list str) (msg : str) :
  append_if cond errors msg = errors ++ one_if cond msg.
Proof. destruct cond; simpl; [reflexivity | now rewrite app_nil_r]. Qed.

Lemma length_eqb_0 {A : Type} (l : list A) : Nat.eqb (length l) 0 = is_empty l.
Proof. destruct l; reflexivity. Qed.

Lemma validate_sql_nonempty
      (fi ti : list str) (parse : str -> result (list Statement)) (sql : str)
      (balanced parse_ok : bool) :
  is_empty (strip sql) = false ->
  parentheses_match (strip sql) = Return balanced ->
  basic_sqlparse_ok parse (strip sql) = Return parse_ok ->
  validate_sql fi ti parse sql =
  Return (is_empty (collected fi ti (strip sql) balanced parse_ok),
          collected fi ti (strip sql) balanced parse_ok).
Proof.
  intros Hne Hb Hp. unfold validate_sql.
  rewrite Hne, Hb. cbn [bind]. unfold uses_known_tables. cbv iota. cbv beta.
  rewrite Hp. cbn [bind].
  rewrite !append_if_one_if, length_eqb_0. cbn [app fst].
  unfold collected, uses_known_tables. cbn [fst].
  rewrite <- !app_assoc. reflexivity.
Qed.

Lemma validate_sql_empty
      (fi ti : list str) (parse : str -> result (list Statement)) (sql : str) :
  is_empty (strip sql) = true ->
  validate_sql fi ti parse sql = Return (false, [msg_empty]).
Proof. intros H. unfold validate_sql. rewrite H. reflexivity. Qed.

Lemma validate_sql_cases
      (fi ti : list str) (parse : str -> result (list Statement)) (sql : str) :
  (is_empty (strip sql) = true /\
   validate_sql fi ti parse sql = Return (false, [msg_empty]))
  \/
  (is_empty (strip sql) = false /\
   exists balanced parse_ok,
     parentheses_match (strip sql) = Return balanced /\
     basic_sqlparse_ok parse (strip sql) = Return parse_ok /\
     validate_sql fi ti parse sql =
     Return (is_empty (collected fi ti (strip sql) balanced parse_ok),
             collected fi ti (strip sql) balanced parse_ok)).
Proof.
  destruct (is_empty (strip sql)) eqn:He.
  - left. split; [reflexivity|]. now apply validate_sql_empty.
  - right. split; [reflexivity|].
    destruct (parentheses_match_returns (strip sql)) as [b Hb].
    destruct (basic_sqlparse_ok_returns parse (strip sql)) as [p Hp].
    exists b, p. repeat split; try assumption.
    now apply validate_sql_nonempty.
Qed.

Lemma In_one_if (cond : bool) (msg m : str) :
  In m (one_if cond msg) <-> cond = true /\ m = msg.
Proof.
  destruct cond; simpl; intuition (try discriminate); subst; auto.
Qed.

Lemma In_collected (fi ti : list str) (t : str) (balanced parse_ok : bool) (m : str) :
  In m (collected fi ti t balanced parse_ok) <->
  (Nat.ltb 1 (count ";"%char t) = true /\ m = msg_multiple)
  \/ (negb (endswith t (py ";")) = true /\ m = msg_semicolon)
  \/ (negb balanced = true /\ m = msg_brackets)
  \/ (negb (quotes_match t) = true /\ m = msg_quotes)
  \/ (negb (is_empty (contains_forbidden fi t)) = true
      /\ m = msg_forbidden (contains_forbidden fi t))
  \/ (negb (has_select_from t) = true /\ m = msg_select_from)
  \/ (negb (fst (uses_known_tables ti t)) = true /\ m = msg_tables)
  \/ (negb parse_ok = true /\ m = msg_sqlparse).
Proof.
  unfold collected. rewrite !in_app_iff, !In_one_if. tauto.
Qed.

(** Two messages that differ are told apart by evaluating them. *)
Lemma msg_forbidden_head (forb : list str) :
  exists rest, msg_forbidden forb = "F"%char :: rest.
Proof. eexists. reflexivity. Qed.

Ltac differ H :=
  exfalso;
  try match goal with
      | Hf : msg_forbidden _ = _ :: _ |- _ => rewrite ?Hf in H
      end;
  vm_compute in H; discriminate H.

Ltac message_forth :=
  rewrite In_collected;
  intros [[? H]|[[? H]|[[? H]|[[? H]|[[? H]|[[? H]|[[? H]|[? H]]]]]]]];
  first [ assumption | differ H ].

Ltac message_back :=
  intros H; apply In_collected; auto 12.

Lemma negb_is_empty_true {A : Type} (l : list A) :
  negb (is_empty l) = true <-> l <> [].
Proof. destruct l; simpl; split; congruence. Qed.

Lemma collected_members
      (fi ti : list str) (t : str) (balanced parse_ok : bool) :
  let errs := collected fi ti t balanced parse_ok in
  (In msg_multiple errs <-> 1 < count ";"%char t)
  /\ (In msg_semicolon errs <-> endswith t (py ";") = false)
  /\ (In msg_brackets errs <-> balanced = false)
  /\ (In msg_quotes errs <-> quotes_match t = false)
  /\ (In (msg_forbidden (contains_forbidden fi t)) errs
      <-> contains_forbidden fi t <> [])
  /\ (In msg_select_from errs <-> has_select_from t = false)
  /\ (In msg_tables errs <-> fst (uses_known_tables ti t) = false)
  /\ (In msg_sqlparse errs <-> parse_ok = false)
  /\ ~ In msg_empty errs.
Proof.
  cbv zeta.
  rewrite <- Nat.ltb_lt, <- !negb_true_iff, <- negb_is_empty_true.
  destruct (msg_forbidden_head (contains_forbidden fi t)) as [rest Hf].
  repeat match goal with |- _ /\ _ => split end;
    try (split; [message_forth | message_back]).
  unfold not. message_forth.
Qed.

Lemma is_empty_true {A : Type} (l : list A) : is_empty l = true <-> l = [].
Proof. destruct l; simpl; split; congruence. Qed.

(** ** The verdict and the error list *)

Lemma validate_sql_returns
      (fi ti : list str) (parse : str -> result (list Statement)) (sql : str) :
  exists passed errs, validate_sql fi ti parse sql = Return (passed, errs).
Proof.
  destruct (validate_sql_cases fi ti parse sql)
    as [[_ H] | [_ (b & p & _ & _ & H)]]; rewrite H; eauto.
Qed.

(** C1. For every input, [validate_sql] returns a pair (passed, errors)
    in which passed is true if and only if errors is empty. *)
Theorem validate_sql_passed_iff_no_errors
        (fi ti : list str) (parse : str -> result (list Statement)) (sql : str) :
  exists passed errs,
    validate_sql fi ti parse sql = Return (passed, errs)
    /\ (passed = true <-> errs = []).
Proof.
  destruct (validate_sql_cases fi ti parse sql)
    as [[_ H] | [_ (b & p & _ & _ & H)]]; rewrite H.
  - exists false, [msg_empty]. split; [reflexivity|].
    split; discriminate.
  - eexists _, _. split; [reflexivity|]. apply is_empty_true.
Qed.

Lemma basic_sqlparse_ok_true
      (parse : str -> result (list Statement)) (sql : str) :
  basic_sqlparse_ok parse sql = Return true <-> parse_finds_select parse sql.
Proof.
  unfold basic_sqlparse_ok, parse_finds_select. split.
  - destruct (parse sql) as [[|stmt rest]|e] eqn:Hp;
      cbn [bind try_except is_empty getitem0]; try discriminate.
    destruct (token_first stmt) as [[tok|]|e] eqn:Ht;
      cbn [bind try_except]; try discriminate.
    destruct (normalized stmt) as [n|e] eqn:Hn;
      cbn [bind try_except]; try discriminate.
    intros [= H]. exists stmt, rest, tok, n. auto.
  - intros (stmt & rest & tok & n & -> & Ht & Hn & Hs).
    cbn [bind try_except is_empty getitem0].
    rewrite Ht. cbn [bind try_except]. rewrite Hn. cbn [bind try_except].
    now rewrite Hs.
Qed.

(** C2. [validate_sql] never raises: for every input it returns a pair.
    The parse check returns a truth value whatever the external parser
    does, and that value is [True] only when the parser gave a first
    statement with a first token and a normalized text that starts with
    [select]: a parser that throws, no statement, no first token, or a
    throw while reading the token or the normalized text all give
    [False].  On a non-empty candidate each of these failures shows up
    as the parse error of the validator, and that error appears for no
    other reason. *)
Theorem validate_sql_total
        (fi ti : list str) (parse : str -> result (list Statement)) (sql : str) :
  (exists passed errs, validate_sql fi ti parse sql = Return (passed, errs))
  /\ (exists b, basic_sqlparse_ok parse sql = Return b)
  /\ (forall e, parse sql = Raise e -> basic_sqlparse_ok parse sql = Return false)
  /\ (forall e,
        is_empty (strip sql) = false ->
        parse (strip sql) = Raise e ->
        exists errs,
          validate_sql fi ti parse sql = Return (false, errs)
          /\ In msg_sqlparse errs)
  /\ (basic_sqlparse_ok parse sql = Return true <-> parse_finds_select parse sql)
  /\ (parse sql = Return [] -> basic_sqlparse_ok parse sql = Return false)
  /\ (forall stmt rest,
        parse sql = Return (stmt :: rest) ->
        (forall e, token_first stmt = Raise e ->
                   basic_sqlparse_ok parse sql = Return false)
        /\ (token_first stmt = Return None ->
            basic_sqlparse_ok parse sql = Return false)
        /\ (forall tok e,
               token_first stmt = Return (Some tok) ->
               normalized stmt = Raise e ->
               basic_sqlparse_ok parse sql = Return false)
        /\ (forall tok n,
               token_first stmt = Return (Some tok) ->
               normalized stmt = Return n ->
               basic_sqlparse_ok parse sql
               = Return (startswith (lower (strip n)) (py "select"))))
  /\ (is_empty (strip sql) = false ->
      exists passed errs,
        validate_sql fi ti parse sql = Return (passed, errs)
        /\ (In msg_sqlparse errs <-> ~ parse_finds_select parse (strip sql))).
Proof.
  split; [|split; [|split; [|split; [|split; [|split; [|split]]]]]].
  - destruct (validate_sql_returns fi ti parse sql) as (p & e & H).
    eauto.
  - apply basic_sqlparse_ok_returns.
  - intros e. apply basic_sqlparse_ok_parser_raises.
  - intros e Hne Hraise.
    destruct (parentheses_match_returns (strip sql)) as [b Hb].
    pose proof (basic_sqlparse_ok_parser_raises parse (strip sql) e Hraise) as Hp.
    rewrite (validate_sql_nonempty fi ti parse sql b false Hne Hb Hp).
    assert (Hin : In msg_sqlparse (collected fi ti (strip sql) b false)).
    { apply In_collected. simpl. auto 12. }
    destruct (collected fi ti (strip sql) b false) as [|m l] eqn:E.
    + destruct Hin.
    + exists (m :: l). split; [reflexivity | exact Hin].
  - apply basic_sqlparse_ok_true.
  - intros H. unfold basic_sqlparse_ok. rewrite H. reflexivity.
  - intros stmt rest Hparse. unfold basic_sqlparse_ok. rewrite Hparse.
    cbn [bind try_except is_empty getitem0].
    split; [|split; [|split]].
    + intros e ->. reflexivity.
    + intros ->. reflexivity.
    + intros tok e -> ->. reflexivity.
    + intros tok n -> ->. reflexivity.
  - intros Hne.
    destruct (parentheses_match_returns (strip sql)) as [b Hb].
    destruct (basic_sqlparse_ok_returns parse (strip sql)) as [p Hp].
    rewrite (validate_sql_nonempty fi ti parse sql b p Hne Hb Hp).
    eexists _, _. split; [reflexivity|].
    pose proof (collected_members fi ti (strip sql) b p) as Hm. cbv zeta in Hm.
    destruct Hm as (_ & _ & _ & _ & _ & _ & _ & Hparse & _).
    rewrite Hparse, <- basic_sqlparse_ok_true, Hp.
    destruct p; split; congruence.
Qed.

Lemma validate_sql_total_witness :
  (exists errs,
      validate_sql FORBIDDEN_WORDS ALLOWED_TABLES parse_raising
                   (py "SELECT name FROM Users;") = Return (false, errs)
      /\ In msg_sqlparse errs)
  /\ basic_sqlparse_ok parse_nothing (py "SELECT name FROM Users;") = Return false
  /\ basic_sqlparse_ok parse_broken_token (py "SELECT name FROM Users;")
     = Return false.
Proof.
  split; [|split].
  - apply (proj1 (proj2 (proj2 (proj2
             (validate_sql_total FORBIDDEN_WORDS ALLOWED_TABLES parse_raising
                                 (py "SELECT name FROM Users;")))))
             (Exception (py "parse failure"))).
    + reflexivity.
    + reflexivity.
  - apply (proj1 (proj2 (proj2 (proj2 (proj2 (proj2
             (validate_sql_total FORBIDDEN_WORDS ALLOWED_TABLES parse_nothing
                                 (py "SELECT name FROM Users;")))))))).
    reflexivity.
  - apply (proj1 (proj1 (proj2 (proj2 (proj2 (proj2 (proj2 (proj2
             (validate_sql_total FORBIDDEN_WORDS ALLOWED_TABLES
                                 parse_broken_token
                                 (py "SELECT name FROM Users;"))))))))
             {| token_first := Raise (Exception (py "no token"));
                normalized := Return (py "SELECT name FROM Users;") |}
             [] eq_refl)
           (Exception (py "no token"))).
    reflexivity.
Defined.

Lemma validate_sql_nonempty_no_msg_empty
      (fi ti : list str) (parse : str -> result (list Statement)) (sql : str) :
  is_empty (strip sql) = false ->
  exists errs,
    validate_sql fi ti parse sql = Return (is_empty errs, errs)
    /\ ~ In msg_empty errs.
Proof.
  intros Hne.
  destruct (parentheses_match_returns (strip sql)) as [b Hb].
  destruct (basic_sqlparse_ok_returns parse (strip sql)) as [p Hp].
  exists (collected fi ti (strip sql) b p).
  split; [now apply validate_sql_nonempty|].
  apply (collected_members fi ti (strip sql) b p).
Qed.

(** C8. An input that is empty after trimming gives exactly the one
    error "Empty SQL."; for any other input every remaining check is
    run and the error list holds the message of a check exactly when
    that check fails, whatever the other checks say. *)
Theorem validate_sql_runs_every_check
        (fi ti : list str) (parse : str -> result (list Statement)) (sql : str) :
  (is_empty (strip sql) = true ->
   validate_sql fi ti parse sql = Return (false, [msg_empty]))
  /\
  (is_empty (strip sql) = false ->
   exists errs,
     validate_sql fi ti parse sql = Return (is_empty errs, errs)
     /\ (In msg_multiple errs <-> 1 < count ";"%char (strip sql))
     /\ (In msg_semicolon errs <-> endswith (strip sql) (py ";") = false)
     /\ (In msg_brackets errs <-> parentheses_match (strip sql) = Return false)
     /\ (In msg_quotes errs <-> quotes_match (strip sql) = false)
     /\ (In (msg_forbidden (contains_forbidden fi (strip sql))) errs
         <-> contains_forbidden fi (strip sql) <> [])
     /\ (In msg_select_from errs <-> has_select_from (strip sql) = false)
     /\ (In msg_tables errs <-> fst (uses_known_tables ti (strip sql)) = false)
     /\ (In msg_sqlparse errs <-> basic_sqlparse_ok parse (strip sql) = Return false)
     /\ ~ In msg_empty errs).
Proof.
  split.
  - apply validate_sql_empty.
  - intros Hne.
    destruct (parentheses_match_returns (strip sql)) as [b Hb].
    destruct (basic_sqlparse_ok_returns parse (strip sql)) as [p Hp].
    exists (collected fi ti (strip sql) b p).
    split; [now apply validate_sql_nonempty|].
    rewrite Hb, Hp.
    pose proof (collected_members fi ti (strip sql) b p) as H. cbv zeta in H.
    destruct H as (H1 & H2 & H3 & H4 & H5 & H6 & H7 & H8 & H9).
    repeat match goal with |- _ /\ _ => split end; try assumption.
    + rewrite H3. split; congruence.
    + rewrite H8. split; congruence.
Qed.

Lemma validate_sql_runs_every_check_witness :
  validate_sql FORBIDDEN_WORDS ALLOWED_TABLES parse_whole (py "   ")
  = Return (false, [msg_empty])
  /\ exists errs,
      validate_sql FORBIDDEN_WORDS ALLOWED_TABLES parse_whole
                   (py "DELETE FROM (Orders") = Return (is_empty errs, errs)
      /\ In msg_semicolon errs /\ In msg_brackets errs
      /\ In (msg_forbidden [py "delete"]) errs /\ In msg_select_from errs.
Proof.
  split.
  - apply (proj1 (validate_sql_runs_every_check
                    FORBIDDEN_WORDS ALLOWED_TABLES parse_whole (py "   "))).
    reflexivity.
  - destruct (proj2 (validate_sql_runs_every_check
                       FORBIDDEN_WORDS ALLOWED_TABLES parse_whole
                       (py "DELETE FROM (Orders")) eq_refl)
      as (errs & Hv & _ & Hsemi & Hbr & _ & Hforb & Hsel & _).
    exists errs. split; [exact Hv|].
    split; [apply Hsemi; reflexivity|].
    split; [apply Hbr; reflexivity|].
    split; [apply Hforb; discriminate|].
    apply Hsel; reflexivity.
Defined.

(* ================================================================== *)
(** ** Trimming *)

Lemma lstrip_split (s : str) :
  exists w, s = w ++ lstrip s /\ forallb isspace w = true.
Proof.
  induction s as [|c s IH]; simpl.
  - exists []. auto.
  - destruct (isspace c) eqn:Hc.
    + destruct IH as (w & Hs & Hw). exists (c :: w). simpl.
      rewrite Hc, Hw. split; [congruence | reflexivity].
    + exists []. auto.
Qed.

Lemma rstrip_split (s : str) :
  exists w, s = rstrip s ++ w /\ forallb isspace w = true.
Proof.
  unfold rstrip. destruct (lstrip_split (rev s)) as (w & Hs & Hw).
  exists (rev w). split.
  - rewrite <- rev_app_distr, <- Hs, rev_involutive. reflexivity.
  - rewrite forallb_forall in *. intros x Hx. apply Hw. now apply in_rev.
Qed.

Lemma strip_split (s : str) :
  exists w1 w2,
    s = w1 ++ strip s ++ w2
    /\ forallb isspace w1 = true /\ forallb isspace w2 = true.
Proof.
  unfold strip.
  destruct (lstrip_split s) as (w1 & H1 & Hw1).
  destruct (rstrip_split (lstrip s)) as (w2 & H2 & Hw2).
  exists w1, w2. repeat split; try assumption.
  rewrite <- H2. exact H1.
Qed.

(* ================================================================== *)
(** ** Bracket balance *)

Lemma pairs_cases (c o : ascii) :
  In (c, o) pairs ->
  (c = ")"%char /\ o = "("%char) \/ (c = "]"%char /\ o = "["%char)
  \/ (c = "}"%char /\ o = "{"%char).
Proof.
  unfold pairs. simpl. intuition congruence.
Qed.

Lemma parentheses_loop_balanced (s : str) :
  balanced s ->
  forall rest stack,
    parentheses_loop (s ++ rest) stack = parentheses_loop rest stack.
Proof.
  induction 1 as [|c s Ho Hc Hs IH|o c s t Hp Hs IHs Ht IHt]; intros rest stack.
  - reflexivity.
  - cbn [app parentheses_loop]. rewrite Ho, Hc. apply IH.
  - cbn [app parentheses_loop].
    rewrite <- app_assoc.
    apply pairs_cases in Hp.
    destruct Hp as [[-> ->] | [[-> ->] | [-> ->]]];
      cbn [char_in py list_ascii_of_string existsb Ascii.eqb Bool.eqb orb andb];
      rewrite IHs; cbn; apply IHt.
Qed.

Lemma closes_other (stack : list ascii) (c : ascii) (s : str) :
  char_in c (py "([{") = false ->
  char_in c (py ")]}") = false ->
  closes stack s -> closes stack (c :: s).
Proof.
  intros Ho Hc. destruct stack as [|o st]; simpl.
  - now apply balanced_other.
  - intros (s1 & c' & s2 & -> & Hp & Hb & Hcl).
    exists (c :: s1), c', s2. repeat split; try assumption.
    now apply balanced_other.
Qed.

Lemma closes_opener (stack : list ascii) (o : ascii) (s : str) :
  closes (o :: stack) s -> closes stack (o :: s).
Proof.
  simpl. intros (s1 & c & s2 & -> & Hp & Hb & Hcl).
  destruct stack as [|o' st]; simpl in *.
  - now apply balanced_pair.
  - destruct Hcl as (t1 & c' & t2 & -> & Hp' & Hb' & Hcl').
    exists (o :: s1 ++ c :: t1), c', t2. repeat split; try assumption.
    + simpl. rewrite <- app_assoc. reflexivity.
    + now apply balanced_pair.
Qed.

Lemma parentheses_loop_closes (s : str) :
  forall stack, parentheses_loop s stack = Return true -> closes stack s.
Proof.
  induction s as [|ch s IH]; intros stack; cbn [parentheses_loop].
  - destruct stack; simpl; [constructor | discriminate].
  - destruct (char_in ch (py "([{")) eqn:Ho.
    { intros H. apply closes_opener. now apply IH. }
    destruct (char_in ch (py ")]}")) eqn:Hc.
    2:{ intros H. apply closes_other; auto. }
    destruct stack as [|t st]; cbn [is_empty stack_top stack_pop bind];
      [discriminate|].
    apply char_in_closers in Hc.
    destruct Hc as [-> | [-> | ->]];
      cbn [getitem pairs Ascii.eqb Bool.eqb bind];
      match goal with |- context [Ascii.eqb t ?p] =>
        destruct (Ascii.eqb_spec t p) as [->|]
      end; cbn [negb]; try discriminate;
      intros H; apply IH in H;
      eexists [], _, s; (repeat split; [| constructor | exact H]);
      unfold pairs; simpl; auto.
Qed.

Lemma parentheses_match_balanced (s : str) :
  parentheses_match s = Return true <-> balanced s.
Proof.
  unfold parentheses_match. split.
  - intros H. apply parentheses_loop_closes in H. exact H.
  - intros H. rewrite <- (app_nil_r s).
    rewrite (parentheses_loop_balanced s H). reflexivity.
Qed.

Lemma parentheses_match_unbalanced (s : str) :
  ~ balanced s -> parentheses_match s = Return false.
Proof.
  intros H. destruct (parentheses_match_returns s) as [[|] Hb]; [|exact Hb].
  exfalso. apply H. now apply parentheses_match_balanced.
Qed.

Lemma isspace_not_bracket (c : ascii) :
  isspace c = true ->
  char_in c (py "([{") = false /\ char_in c (py ")]}") = false.
Proof.
  destruct c as [[] [] [] [] [] [] [] []]; intros H;
    first [ discriminate H | split; reflexivity ].
Qed.

Lemma balanced_spaces_app (w s : str) :
  forallb isspace w = true -> balanced s -> balanced (w ++ s).
Proof.
  induction w as [|c w IH]; simpl; intros Hw Hs; [exact Hs|].
  apply andb_true_iff in Hw. destruct Hw as [Hc Hw].
  destruct (isspace_not_bracket c Hc) as [Ho Hcl].
  apply balanced_other; auto.
Qed.

Lemma balanced_app (s t : str) :
  balanced s -> balanced t -> balanced (s ++ t).
Proof.
  induction 1 as [|c s Ho Hc Hs IH|o c s t0 Hp Hs IHs Ht IHt]; intros Hb; simpl.
  - exact Hb.
  - apply balanced_other; auto.
  - rewrite <- app_assoc. simpl. apply balanced_pair; auto.
Qed.

Lemma balanced_of_strip (s : str) : balanced (strip s) -> balanced s.
Proof.
  intros H. destruct (strip_split s) as (w1 & w2 & Hs & Hw1 & Hw2).
  rewrite Hs. apply balanced_spaces_app; [exact Hw1|].
  apply balanced_app; [exact H|].
  rewrite <- (app_nil_r w2). apply balanced_spaces_app; [exact Hw2 | constructor].
Qed.

(** C7. The bracket check accepts exactly the well-bracketed texts, so
    a closer that does not close the nearest open bracket, or an opener
    left open, makes [validate_sql] report the bracket error; the text
    [SELECT (a, [b)];], with as many closers as openers of each kind,
    is reported. *)
Theorem bracket_check_is_lifo :
  (forall s, parentheses_match s = Return true <-> balanced s)
  /\ (forall s, ~ balanced s -> parentheses_match s = Return false)
  /\ (forall fi ti parse sql,
        ~ balanced sql ->
        exists errs,
          validate_sql fi ti parse sql = Return (false, errs)
          /\ In msg_brackets errs)
  /\ (forall fi ti parse,
        count "("%char (py "SELECT (a, [b)];") = count ")"%char (py "SELECT (a, [b)];")
        /\ count "["%char (py "SELECT (a, [b)];") = count "]"%char (py "SELECT (a, [b)];")
        /\ exists errs,
            validate_sql fi ti parse (py "SELECT (a, [b)];") = Return (false, errs)
            /\ In msg_brackets errs).
Proof.
  assert (Hval : forall fi ti parse sql,
             ~ balanced sql ->
             exists errs,
               validate_sql fi ti parse sql = Return (false, errs)
               /\ In msg_brackets errs).
  { intros fi ti parse sql Hnb.
    assert (Hnb' : ~ balanced (strip sql)).
    { intros H. apply Hnb. now apply balanced_of_strip. }
    assert (Hne : is_empty (strip sql) = false).
    { destruct (strip sql); [exfalso; apply Hnb'; constructor | reflexivity]. }
    pose proof (parentheses_match_unbalanced _ Hnb') as Hb.
    destruct (basic_sqlparse_ok_returns parse (strip sql)) as [p Hp].
    rewrite (validate_sql_nonempty fi ti parse sql false p Hne Hb Hp).
    assert (Hin : In msg_brackets (collected fi ti (strip sql) false p)).
    { apply In_collected. simpl. auto 12. }
    destruct (collected fi ti (strip sql) false p) as [|m l] eqn:E.
    - destruct Hin.
    - exists (m :: l). split; [reflexivity | exact Hin]. }
  split; [exact parentheses_match_balanced|].
  split; [exact parentheses_match_unbalanced|].
  split; [exact Hval|].
  intros fi ti parse. split; [reflexivity|]. split; [reflexivity|].
  apply Hval. intros H. apply parentheses_match_balanced in H.
  vm_compute in H. discriminate H.
Qed.

Lemma bracket_check_is_lifo_witness :
  exists errs,
    validate_sql FORBIDDEN_WORDS ALLOWED_TABLES parse_whole
                 (py "SELECT name FROM Users WHERE (name = [1)];")
    = Return (false, errs)
    /\ In msg_brackets errs.
Proof.
  apply (proj1 (proj2 (proj2 bracket_check_is_lifo))).
  intros H. apply (proj1 bracket_check_is_lifo) in H.
  vm_compute in H. discriminate H.
Defined.

(* ================================================================== *)
(** ** Forbidden keywords *)

Lemma startswith_app (s p : str) :
  startswith s p = true <-> exists rest, s = p ++ rest.
Proof.
  revert s. induction p as [|a p IH]; intros s; simpl.
  - split; [exists s; reflexivity | reflexivity].
  - destruct s as [|b s]; simpl.
    + split; [discriminate | intros [rest H]; discriminate H].
    + rewrite andb_true_iff, Ascii.eqb_eq, IH. split.
      * intros [-> [rest ->]]. exists rest. reflexivity.
      * intros [rest H]. injection H as -> ->. eauto.
Qed.

Lemma last_cons_default {A : Type} (l : list A) (a d : A) :
  last (a :: l) d = last l a.
Proof.
  revert a d. induction l as [|b l IH]; intros a d; [reflexivity|].
  change (last (a :: b :: l) d) with (last (b :: l) d).
  rewrite (IH b d), (IH b a). reflexivity.
Qed.

Lemma isword_at_last_word (kw : str) (prev : option ascii) :
  kw <> [] -> forallb isword kw = true ->
  isword_at (last (map Some kw) prev) = true.
Proof.
  revert prev. induction kw as [|k kw IH]; intros prev Hne Hw; [congruence|].
  simpl in Hw. apply andb_true_iff in Hw. destruct Hw as [Hk Hw].
  cbn [map]. rewrite last_cons_default.
  destruct kw as [|k' kw']; [exact Hk|].
  apply IH; [discriminate | exact Hw].
Qed.

Lemma skipn_length_app {A : Type} (l r : list A) : skipn (length l) (l ++ r) = r.
Proof. induction l; simpl; auto. Qed.

Lemma word_match_at_spec (kw : str) (prev : option ascii) (s : str) :
  kw <> [] -> forallb isword kw = true ->
  word_match_at kw prev s = true <->
  isword_at prev = false
  /\ exists post, s = kw ++ post /\ isword_at (hd_error post) = false.
Proof.
  intros Hne Hw. unfold word_match_at, boundary.
  rewrite !andb_true_iff, startswith_app. split.
  - intros [[Hb [post ->]] Ha].
    rewrite skipn_length_app, (isword_at_last_word kw prev Hne Hw) in Ha.
    destruct kw as [|k kw']; [congruence|].
    simpl in Hw, Hb. apply andb_true_iff in Hw. destruct Hw as [Hk _].
    rewrite Hk in Hb.
    split; [now destruct (isword_at prev)|].
    exists post. split; [reflexivity|]. now destruct (isword_at (hd_error post)).
  - intros [Hp (post & -> & Ha)].
    rewrite skipn_length_app, (isword_at_last_word kw prev Hne Hw), Hp, Ha.
    destruct kw as [|k kw']; [congruence|].
    simpl in Hw. apply andb_true_iff in Hw. destruct Hw as [Hk _].
    simpl. rewrite Hk. eauto.
Qed.

Lemma re_search_word_from_spec (kw : str) :
  kw <> [] -> forallb isword kw = true ->
  forall s prev,
    re_search_word_from kw prev s = true <->
    exists pre post,
      s = pre ++ kw ++ post
      /\ isword_at (last (map Some pre) prev) = false
      /\ isword_at (hd_error post) = false.
Proof.
  intros Hne Hw. induction s as [|c s IH]; intros prev; cbn [re_search_word_from];
    rewrite orb_true_iff, (word_match_at_spec kw prev _ Hne Hw).
  - split.
    + intros [[Hp (post & Hs & Ha)] | H]; [|discriminate].
      exists [], post. auto.
    + intros (pre & post & Hs & Hp & Ha). left.
      destruct pre as [|x pre]; [|discriminate Hs].
      simpl in *. eauto.
  - rewrite IH. split.
    + intros [[Hp (post & Hs & Ha)] | (pre & post & Hs & Hp & Ha)].
      * exists [], post. auto.
      * exists (c :: pre), post. cbn [map]. rewrite last_cons_default.
        split; [simpl; congruence | auto].
    + intros (pre & post & Hs & Hp & Ha).
      destruct pre as [|x pre].
      * left. simpl in *. eauto.
      * right. simpl in Hs. injection Hs as -> ->.
        cbn [map] in Hp. rewrite last_cons_default in Hp.
        exists pre, post. auto.
Qed.

Lemma isword_at_last_lower (l : str) (d : option ascii) :
  isword_at (last (map Some (lower l)) (option_map lower_char d))
  = isword_at (last (map Some l) d).
Proof.
  revert d. induction l as [|c l IH]; intros d.
  - destruct d; simpl; [apply isword_lower_char | reflexivity].
  - cbn [lower map]. rewrite !last_cons_default.
    apply (IH (Some c)).
Qed.

Lemma isword_at_hd_lower (l : str) :
  isword_at (hd_error (lower l)) = isword_at (hd_error l).
Proof. destruct l; simpl; [reflexivity | apply isword_lower_char]. Qed.

Lemma re_search_word_lower (kw sql : str) :
  kw <> [] -> forallb isword kw = true ->
  re_search_word kw (lower sql) = true <-> occurs_as_whole_word kw sql.
Proof.
  intros Hne Hw. unfold re_search_word, occurs_as_whole_word.
  rewrite (re_search_word_from_spec kw Hne Hw). split.
  - intros (pre' & post' & Hs & Hp & Ha).
    apply map_eq_app in Hs. destruct Hs as (pre & rest & -> & <- & Hrest).
    apply map_eq_app in Hrest. destruct Hrest as (mid & post & -> & Hmid & <-).
    exists pre, mid, post. repeat split; try assumption.
    + rewrite <- Hp. symmetry. apply (isword_at_last_lower pre None).
    + rewrite <- Ha. symmetry. apply isword_at_hd_lower.
  - intros (pre & mid & post & -> & Hmid & Hp & Ha).
    exists (lower pre), (lower post). unfold lower in *.
    rewrite !map_app, Hmid. repeat split.
    + rewrite <- Hp. apply (isword_at_last_lower pre None).
    + rewrite <- Ha. apply isword_at_hd_lower.
Qed.

Lemma FORBIDDEN_WORDS_are_words (kw : str) :
  In kw FORBIDDEN_WORDS -> kw <> [] /\ forallb isword kw = true.
Proof.
  unfold FORBIDDEN_WORDS. simpl.
  intros H. repeat (destruct H as [<- | H]; [split; [discriminate | reflexivity]|]).
  destruct H.
Qed.

Lemma Permutation_filter {A : Type} (f : A -> bool) (l l' : list A) :
  Permutation l l' -> Permutation (filter f l) (filter f l').
Proof.
  induction 1 as [|x l l' Hp IH|x y l|l l' l'' H1 IH1 H2 IH2]; simpl.
  - constructor.
  - destruct (f x); [now constructor | exact IH].
  - destruct (f x), (f y); try apply Permutation_refl. apply perm_swap.
  - now apply Permutation_trans with (filter f l').
Qed.

Lemma contains_forbidden_order (fi : list str) (sql : str) :
  Permutation fi FORBIDDEN_WORDS ->
  Permutation (contains_forbidden FORBIDDEN_WORDS sql) (contains_forbidden fi sql).
Proof.
  intros H. unfold contains_forbidden. apply Permutation_filter.
  now apply Permutation_sym.
Qed.

Lemma validate_sql_reports
      (fi ti : list str) (parse : str -> result (list Statement)) (sql m : str) :
  is_empty (strip sql) = false ->
  (forall b p, In m (collected fi ti (strip sql) b p)) ->
  exists errs, validate_sql fi ti parse sql = Return (false, errs) /\ In m errs.
Proof.
  intros Hne Hin.
  destruct (parentheses_match_returns (strip sql)) as [b Hb].
  destruct (basic_sqlparse_ok_returns parse (strip sql)) as [p Hp].
  rewrite (validate_sql_nonempty fi ti parse sql b p Hne Hb Hp).
  specialize (Hin b p).
  destruct (collected fi ti (strip sql) b p) as [|e l] eqn:E.
  - destruct Hin.
  - exists (e :: l). split; [reflexivity | exact Hin].
Qed.

Lemma validate_sql_reports_forbidden
      (fi ti : list str) (parse : str -> result (list Statement)) (sql : str) :
  contains_forbidden fi (strip sql) <> [] ->
  is_empty (strip sql) = false ->
  exists errs,
    validate_sql fi ti parse sql = Return (false, errs)
    /\ In (msg_forbidden (contains_forbidden fi (strip sql))) errs.
Proof.
  intros Hf Hne. apply validate_sql_reports; [exact Hne|].
  intros b p. apply In_collected.
  apply negb_is_empty_true in Hf. auto 12.
Qed.

Lemma validate_sql_no_forbidden
      (fi ti : list str) (parse : str -> result (list Statement)) (sql : str)
      (passed : bool) (errs : list str) :
  contains_forbidden fi (strip sql) = [] ->
  validate_sql fi ti parse sql = Return (passed, errs) ->
  forall found, ~ In (msg_forbidden found) errs.
Proof.
  intros Hf Hv found Hin.
  destruct (msg_forbidden_head found) as [rest Hfound].
  destruct (validate_sql_cases fi ti parse sql)
    as [[_ H] | [_ (b & p & _ & _ & H)]];
    rewrite H in Hv; injection Hv as <- <-.
  - destruct Hin as [H1 | []]. differ H1.
  - apply In_collected in Hin. rewrite Hf in Hin.
    destruct Hin
      as [[? H1]|[[? H1]|[[? H1]|[[? H1]|[[? H1]|[[? H1]|[[? H1]|[? H1]]]]]]]];
      first [ discriminate | differ H1 ].
Qed.


(* ================================================================== *)
(** ** Extraction *)

Lemma rstrip_snoc (x : str) (c : ascii) :
  isspace c = false -> rstrip (x ++ [c]) = x ++ [c].
Proof.
  intros Hc. unfold rstrip. rewrite rev_unit. simpl. rewrite Hc.
  simpl. rewrite rev_involutive. reflexivity.
Qed.

Lemma strip_tidy (y : str) : tidy y -> strip y = y.
Proof.
  intros [(a & r & -> & Ha) (x & Hx)]. unfold strip. simpl. rewrite Ha.
  rewrite Hx. now apply rstrip_snoc.
Qed.

Lemma tidy_nonempty (y : str) : tidy y -> is_empty y = false.
Proof. intros [(a & r & -> & _) _]. reflexivity. Qed.

Lemma upto_semicolon_snoc (s m : str) :
  upto_semicolon s = Some m -> exists x, m = x ++ [";"%char].
Proof.
  revert m. induction s as [|c s IH]; intros m; simpl; [discriminate|].
  destruct (Ascii.eqb_spec c ";"%char) as [->|Hc].
  - intros [= <-]. exists []. reflexivity.
  - destruct (upto_semicolon s) as [m'|]; [|discriminate].
    intros [= <-]. destruct (IH m' eq_refl) as [x ->].
    exists (c :: x). reflexivity.
Qed.

Lemma upto_semicolon_fixed (s m : str) :
  upto_semicolon s = Some m -> upto_semicolon m = Some m.
Proof.
  revert m. induction s as [|c s IH]; intros m; simpl; [discriminate|].
  destruct (Ascii.eqb c ";"%char) eqn:Hc.
  - intros [= <-]. simpl. rewrite Hc. reflexivity.
  - destruct (upto_semicolon s) as [m'|]; [|discriminate].
    intros [= <-]. simpl. rewrite Hc, (IH m' eq_refl). reflexivity.
Qed.

Lemma upto_semicolon_hd (s m : str) :
  upto_semicolon s = Some m -> hd_error m = hd_error s.
Proof.
  destruct s as [|c s]; simpl; [discriminate|].
  destruct (Ascii.eqb c ";"%char).
  - intros [= <-]. reflexivity.
  - destruct (upto_semicolon s); [|discriminate]. intros [= <-]. reflexivity.
Qed.

(** What a match of [select\b.*?;] at the start of [s] looks like. *)
Lemma select_match_at_inv (s m : str) :
  select_match_at s = Some m ->
  exists c0 c1 c2 c3 c4 c5 t b,
    s = c0 :: c1 :: c2 :: c3 :: c4 :: c5 :: t
    /\ lower [c0; c1; c2; c3; c4; c5] = py "select"
    /\ boundary (Some c5) (hd_error t) = true
    /\ upto_semicolon t = Some b
    /\ m = c0 :: c1 :: c2 :: c3 :: c4 :: c5 :: b.
Proof.
  unfold select_match_at.
  destruct (startswith (lower s) (py "select")) eqn:Hs; [|discriminate].
  apply startswith_app in Hs. destruct Hs as [rest Hs].
  apply map_eq_app in Hs. destruct Hs as (h & t & -> & Hh & _).
  unfold py in Hh. cbn [list_ascii_of_string] in Hh.
  destruct h as [|c0 [|c1 [|c2 [|c3 [|c4 [|c5 [|c6 h]]]]]]]; try discriminate Hh.
  cbn [app skipn firstn].
  change (nth_error (c0 :: c1 :: c2 :: c3 :: c4 :: c5 :: t) 5) with (Some c5).
  change (nth_error (c0 :: c1 :: c2 :: c3 :: c4 :: c5 :: t) 6) with (hd_error t).
  destruct (boundary (Some c5) (hd_error t)) eqn:Hb; [|discriminate].
  destruct (upto_semicolon t) as [b|] eqn:Hu; [|discriminate].
  intros [= <-]. exists c0, c1, c2, c3, c4, c5, t, b. auto 10.
Qed.

Lemma select_match_at_fixed (s m : str) :
  select_match_at s = Some m -> select_match_at m = Some m /\ tidy m.
Proof.
  intros H. apply select_match_at_inv in H.
  destruct H as (c0 & c1 & c2 & c3 & c4 & c5 & t & b & -> & Hl & Hb & Hu & ->).
  split.
  - unfold select_match_at.
    assert (Hs : startswith (lower (c0 :: c1 :: c2 :: c3 :: c4 :: c5 :: b))
                            (py "select") = true).
    { apply startswith_app. exists (lower b).
      change (c0 :: c1 :: c2 :: c3 :: c4 :: c5 :: b)
        with ([c0; c1; c2; c3; c4; c5] ++ b).
      unfold lower in *. rewrite map_app, Hl. reflexivity. }
    rewrite Hs. cbn [skipn firstn].
    change (nth_error (c0 :: c1 :: c2 :: c3 :: c4 :: c5 :: b) 5) with (Some c5).
    change (nth_error (c0 :: c1 :: c2 :: c3 :: c4 :: c5 :: b) 6) with (hd_error b).
    rewrite (upto_semicolon_hd t b Hu), Hb, (upto_semicolon_fixed t b Hu).
    reflexivity.
  - split.
    + exists c0, (c1 :: c2 :: c3 :: c4 :: c5 :: b). split; [reflexivity|].
      injection Hl as H0 _. rewrite <- isspace_lower_char, H0. reflexivity.
    + destruct (upto_semicolon_snoc t b Hu) as [x ->].
      exists (c0 :: c1 :: c2 :: c3 :: c4 :: c5 :: x). reflexivity.
Qed.

Lemma re_search_select_inv (s m : str) :
  re_search_select s = Some m ->
  exists pre s', s = pre ++ s' /\ select_match_at s' = Some m.
Proof.
  induction s as [|c s IH]; cbn [re_search_select].
  - destruct (select_match_at []) eqn:E; [|discriminate].
    intros [= <-]. exists [], []. auto.
  - destruct (select_match_at (c :: s)) eqn:E.
    + intros [= <-]. exists [], (c :: s). auto.
    + intros H. destruct (IH H) as (pre & s' & -> & Hm).
      exists (c :: pre), s'. auto.
Qed.

Lemma re_search_select_of_match (s m : str) :
  select_match_at s = Some m -> re_search_select s = Some m.
Proof. intros H. destruct s; cbn [re_search_select]; rewrite H; reflexivity. Qed.

Lemma re_search_select_fixed (s m : str) :
  re_search_select s = Some m -> re_search_select m = Some m /\ tidy m.
Proof.
  intros H. apply re_search_select_inv in H. destruct H as (pre & s' & _ & H).
  apply select_match_at_fixed in H. destruct H as [H Ht].
  split; [now apply re_search_select_of_match | exact Ht].
Qed.

Lemma extract_candidate_sql_unfold (raw : str) :
  extract_candidate_sql raw =
  match re_search_select raw with
  | Some m => strip m
  | None => with_semicolon (collapsed raw)
  end.
Proof. reflexivity. Qed.

Lemma endswith_semicolon (c : str) :
  endswith c (py ";") = true <-> exists x, c = x ++ [";"%char].
Proof.
  unfold endswith. rewrite startswith_app. simpl. split.
  - intros [rest H]. exists (rev rest).
    rewrite <- (rev_involutive c), H. reflexivity.
  - intros [x ->]. exists (rev x). now rewrite rev_unit.
Qed.

Lemma with_semicolon_snoc (c : str) : exists x, with_semicolon c = x ++ [";"%char].
Proof.
  unfold with_semicolon. destruct (endswith c (py ";")) eqn:E; simpl.
  - now apply endswith_semicolon.
  - exists c. reflexivity.
Qed.

Lemma with_semicolon_fixed (y : str) :
  (exists x, y = x ++ [";"%char]) -> with_semicolon y = y.
Proof.
  intros H. apply endswith_semicolon in H. unfold with_semicolon.
  rewrite H. reflexivity.
Qed.

(** *** Lines hold no line break *)

Lemma splitlines_from_one_line (n : nat) :
  forall s cur,
    length s <= n -> one_line cur ->
    Forall one_line (splitlines_from cur s).
Proof.
  induction n as [|n IH]; intros s cur Hlen Hcur.
  - destruct s; [|simpl in Hlen; lia]. cbn [splitlines_from].
    destruct (is_empty cur); [constructor|].
    constructor; [|constructor]. now apply Forall_rev.
  - destruct s as [|c s]; cbn [splitlines_from].
    + destruct (is_empty cur); [constructor|].
      constructor; [|constructor]. now apply Forall_rev.
    + simpl in Hlen.
      assert (Hrev : one_line (rev cur)) by now apply Forall_rev.
      destruct (Ascii.eqb c "013"%char).
      * destruct s as [|c' s'].
        -- constructor; [exact Hrev|]. apply IH; [simpl; lia | constructor].
        -- destruct (Ascii.eqb c' "010"%char);
             (constructor; [exact Hrev|]);
             apply IH; simpl in *; try lia; constructor.
      * destruct (islinebreak c) eqn:Hc.
        -- constructor; [exact Hrev|]. apply IH; [lia | constructor].
        -- apply IH; [lia|]. constructor; assumption.
Qed.

Lemma splitlines_one_line (s : str) : Forall one_line (splitlines s).
Proof.
  apply (splitlines_from_one_line (length s)); [lia | constructor].
Qed.

Lemma strip_Forall (P : ascii -> Prop) (s : str) :
  Forall P s -> Forall P (strip s).
Proof.
  intros H. destruct (strip_split s) as (w1 & w2 & Hs & _).
  rewrite Hs in H. apply Forall_app in H. destruct H as [_ H].
  apply Forall_app in H. tauto.
Qed.

Lemma join_Forall (P : ascii -> Prop) (sep : str) (parts : list str) :
  Forall P sep -> Forall (Forall P) parts -> Forall P (join sep parts).
Proof.
  intros Hsep. induction parts as [|p parts IH]; intros H.
  - constructor.
  - inversion H as [|? ? Hp Hrest]; subst.
    destruct parts as [|q parts]; [exact Hp|].
    cbn [join]. apply Forall_app. split; [exact Hp|].
    apply Forall_app. split; [exact Hsep | now apply IH].
Qed.

Lemma collapsed_one_line (raw : str) : one_line (collapsed raw).
Proof.
  unfold collapsed. apply join_Forall.
  - repeat constructor.
  - apply Forall_map.
    assert (H : Forall one_line (filter nonblank (splitlines (strip raw)))).
    { apply Forall_forall. intros l Hl. apply filter_In in Hl.
      destruct Hl as [Hl _].
      pose proof (splitlines_one_line (strip raw)) as Hall.
      rewrite Forall_forall in Hall. now apply Hall. }
    eapply Forall_impl; [|exact H]. intros l. apply strip_Forall.
Qed.

Lemma with_semicolon_one_line (c : str) : one_line c -> one_line (with_semicolon c).
Proof.
  intros H. unfold with_semicolon. destruct (negb (endswith c (py ";"))); [|exact H].
  apply Forall_app. split; [exact H | repeat constructor].
Qed.

(** *** Trimmed texts start with a non-blank *)

Lemma lstrip_hd (s : str) (a : ascii) (r : str) :
  lstrip s = a :: r -> isspace a = false.
Proof.
  induction s as [|c s IH]; simpl; [discriminate|].
  destruct (isspace c) eqn:Hc; [exact IH|]. intros [= <- _]. exact Hc.
Qed.

Lemma strip_hd (s : str) (a : ascii) (r : str) :
  strip s = a :: r -> isspace a = false.
Proof.
  unfold strip. intros H.
  destruct (rstrip_split (lstrip s)) as (w & Hs & _).
  rewrite H in Hs. simpl in Hs. now apply lstrip_hd in Hs.
Qed.

Lemma join_hd (sep : str) (a : ascii) (r : str) (rest : list str) :
  exists r', join sep ((a :: r) :: rest) = a :: r'.
Proof. destruct rest; simpl; eauto. Qed.

Lemma collapsed_hd (raw : str) :
  collapsed raw = [] \/ exists a r, collapsed raw = a :: r /\ isspace a = false.
Proof.
  unfold collapsed.
  destruct (filter nonblank (splitlines (strip raw))) as [|l ls] eqn:E.
  - left. reflexivity.
  - right.
    assert (Hl : nonblank l = true).
    { assert (Hin : In l (filter nonblank (splitlines (strip raw))))
        by (rewrite E; now left).
      apply filter_In in Hin. tauto. }
    unfold nonblank in Hl. cbn [map].
    destruct (strip l) as [|a r] eqn:Es; [discriminate|].
    destruct (join_hd (py " ") a r (map strip ls)) as [r' Hj].
    exists a, r'. split; [exact Hj | now apply (strip_hd l a r)].
Qed.

Lemma with_semicolon_collapsed_tidy (raw : str) : tidy (with_semicolon (collapsed raw)).
Proof.
  split; [|apply with_semicolon_snoc].
  unfold with_semicolon.
  destruct (collapsed_hd raw) as [-> | (a & r & -> & Ha)].
  - simpl. exists ";"%char, []. auto.
  - destruct (negb (endswith (a :: r) (py ";"))); simpl; eauto.
Qed.

(** *** The fallback on a text that is already collapsed *)

Lemma not_linebreak_not_cr (c : ascii) :
  islinebreak c = false -> Ascii.eqb c "013"%char = false.
Proof. each_char c. Qed.

Lemma splitlines_from_no_break (s : str) :
  one_line s ->
  forall cur,
    splitlines_from cur s =
    if is_empty (rev cur ++ s) then [] else [rev cur ++ s].
Proof.
  induction 1 as [|c s Hc Hs IH]; intros cur; cbn [splitlines_from].
  - rewrite app_nil_r. destruct cur as [|x cur]; [reflexivity|].
    cbn [is_empty]. destruct (rev (x :: cur)) eqn:E; [|reflexivity].
    apply (f_equal (@length ascii)) in E. rewrite length_rev in E. discriminate E.
  - rewrite (not_linebreak_not_cr c Hc), Hc, IH.
    cbn [rev]. rewrite <- app_assoc. reflexivity.
Qed.

Lemma fallback_fixed (y : str) :
  tidy y -> one_line y -> with_semicolon (collapsed y) = y.
Proof.
  intros Ht Hl.
  assert (Hy : collapsed y = y).
  { unfold collapsed, splitlines.
    rewrite (strip_tidy y Ht), (splitlines_from_no_break y Hl []).
    cbn [rev app]. rewrite (tidy_nonempty y Ht).
    cbn [filter]. unfold nonblank.
    rewrite (strip_tidy y Ht), (tidy_nonempty y Ht).
    cbn [negb map join]. apply (strip_tidy y Ht). }
  rewrite Hy. apply with_semicolon_fixed. apply Ht.
Qed.

Lemma extract_candidate_sql_tidy (raw : str) : tidy (extract_candidate_sql raw).
Proof.
  rewrite extract_candidate_sql_unfold.
  destruct (re_search_select raw) as [m|] eqn:E.
  - apply re_search_select_fixed in E. destruct E as [_ Ht].
    rewrite (strip_tidy m Ht). exact Ht.
  - apply with_semicolon_collapsed_tidy.
Qed.

Lemma extract_candidate_sql_match (raw m : str) :
  re_search_select raw = Some m ->
  extract_candidate_sql raw = m /\ extract_candidate_sql m = m.
Proof.
  intros E. pose proof (re_search_select_fixed raw m E) as [Em Ht].
  rewrite !extract_candidate_sql_unfold, E, Em, (strip_tidy m Ht). auto.
Qed.

Lemma extract_candidate_sql_no_match_again (raw : str) :
  re_search_select (extract_candidate_sql raw) = None ->
  extract_candidate_sql (extract_candidate_sql raw) = extract_candidate_sql raw.
Proof.
  intros Hnone.
  rewrite (extract_candidate_sql_unfold (extract_candidate_sql raw)), Hnone.
  apply fallback_fixed; [apply extract_candidate_sql_tidy|].
  rewrite extract_candidate_sql_unfold in *.
  destruct (re_search_select raw) as [m|] eqn:E.
  - apply re_search_select_fixed in E. destruct E as [Em Ht].
    rewrite (strip_tidy m Ht) in Hnone. congruence.
  - apply with_semicolon_one_line, collapsed_one_line.
Qed.

Lemma extract_candidate_sql_twice (raw : str) :
  extract_candidate_sql (extract_candidate_sql raw) = extract_candidate_sql raw
  <->
  (re_search_select (extract_candidate_sql raw) = None
   \/ re_search_select (extract_candidate_sql raw)
      = Some (extract_candidate_sql raw)).
Proof.
  split.
  - intros H.
    destruct (re_search_select (extract_candidate_sql raw)) as [m|] eqn:E;
      [right | now left].
    apply extract_candidate_sql_match in E. destruct E as [E _]. congruence.
  - intros [H | H].
    + now apply extract_candidate_sql_no_match_again.
    + now apply extract_candidate_sql_match in H.
Qed.

(** The claim of C9 as stated fails: the semicolon that the fallback
    appends can complete a [select ...;] span that starts inside the
    text, and a second extraction then keeps only that span. *)
Lemma extractor_not_idempotent :
  extract_candidate_sql (extract_candidate_sql (py "Answer: SELECT name FROM Users"))
  <> extract_candidate_sql (py "Answer: SELECT name FROM Users").
Proof. vm_compute. discriminate. Qed.

(** C9 (amended). When the primary pattern matches the raw text, the
    extracted statement is returned unchanged by a second extraction;
    when the output of the extractor holds no match of the primary
    pattern, it is returned unchanged as well.  In general the output is
    a fixed point exactly when it has no primary match or is its own
    primary match, and the output of a second extraction always is
    one. *)
Theorem extractor_fixed_points (raw : str) :
  (forall m,
      re_search_select raw = Some m ->
      extract_candidate_sql raw = m /\ extract_candidate_sql m = m)
  /\ (re_search_select (extract_candidate_sql raw) = None ->
      extract_candidate_sql (extract_candidate_sql raw) = extract_candidate_sql raw)
  /\ (extract_candidate_sql (extract_candidate_sql raw) = extract_candidate_sql raw
      <->
      (re_search_select (extract_candidate_sql raw) = None
       \/ re_search_select (extract_candidate_sql raw)
          = Some (extract_candidate_sql raw)))
  /\ extract_candidate_sql (extract_candidate_sql (extract_candidate_sql raw))
     = extract_candidate_sql (extract_candidate_sql raw).
Proof.
  split; [apply extract_candidate_sql_match|].
  split; [apply extract_candidate_sql_no_match_again|].
  split; [apply extract_candidate_sql_twice|].
  destruct (re_search_select (extract_candidate_sql raw)) as [m|] eqn:E.
  - destruct (extract_candidate_sql_match _ m E) as [-> Hm]. exact Hm.
  - rewrite (extract_candidate_sql_no_match_again raw E).
    now apply extract_candidate_sql_no_match_again.
Qed.

Lemma extractor_fixed_points_witness :
  extract_candidate_sql (py "Sure! SELECT name FROM Users; I hope this helps")
  = py "SELECT name FROM Users;"
  /\ extract_candidate_sql (py "SELECT name FROM Users;") = py "SELECT name FROM Users;"
  /\ extract_candidate_sql (extract_candidate_sql (py "no query here"))
     = extract_candidate_sql (py "no query here").
Proof.
  pose proof (extractor_fixed_points (py "Sure! SELECT name FROM Users; I hope this helps"))
    as [Hmatch _].
  destruct (Hmatch (py "SELECT name FROM Users;") eq_refl) as [H1 H2].
  split; [exact H1 | split; [exact H2|]].
  apply (proj1 (proj2 (extractor_fixed_points (py "no query here")))).
  reflexivity.
Defined.

(* ================================================================== *)
(** ** The attempt loop *)

Lemma range_length (lo hi : Z) : length (range lo hi) = Z.to_nat (hi - lo).
Proof. unfold range. now rewrite length_map, length_seq. Qed.

Section RunProperties.

Variable forbidden_iter : list str.
Variable tables_iter : list str.
Variable sqlparse_parse : str -> result (list Statement).
Variable G : Type.
Variable make_generator : str -> result G.
Variable gen : G -> str -> G * result pipeline_out.

Abbreviation validate := (validate_sql forbidden_iter tables_iter sqlparse_parse).
Abbreviation generate := (generate_sql_from_model G gen).
Abbreviation loop :=
  (attempt_loop forbidden_iter tables_iter sqlparse_parse G gen).
Abbreviation attempt_fits :=
  (attempt_ok forbidden_iter tables_iter sqlparse_parse G gen).
Abbreviation post :=
  (loop_post forbidden_iter tables_iter sqlparse_parse G gen).

Lemma attempt_loop_spec (question : str) (todo : list Z) :
  forall g previous_sql error_hint done,
  exists made previous_sql' final,
    loop question todo g previous_sql error_hint done
    = Return (done ++ made, previous_sql', final)
    /\ post todo previous_sql made previous_sql' final.
Proof.
  induction todo as [|k todo IH]; intros g previous_sql error_hint done.
  - exists [], previous_sql, None. cbn [attempt_loop]. rewrite app_nil_r.
    split; [reflexivity|]. unfold loop_post. simpl.
    repeat split; auto; congruence.
  - cbn [attempt_loop].
    set (p := BASE_PROMPT_format question previous_sql error_hint).
    destruct (generate g p) as [g' generated] eqn:Egen.
    assert (Hcand : exists cand,
               try_except generated (fun _ => Return []) = Return cand).
    { destruct generated; simpl; eauto. }
    destruct Hcand as [cand Hcand]. rewrite Hcand. cbn [bind].
    destruct (validate_sql_returns forbidden_iter tables_iter sqlparse_parse
                (extract_candidate_sql cand)) as (passed & errs & Hv).
    rewrite Hv. cbn [bind].
    set (this := {| attempt := k; prompt := p; candidate := cand;
                    candidate_sql := extract_candidate_sql cand;
                    ok := passed; errors := errs |}).
    assert (Hthis : attempt_fits this).
    { split; [|split]; [|reflexivity|exact Hv].
      exists g. cbn [prompt this]. rewrite Egen. exact Hcand. }
    destruct passed eqn:Epassed.
    + exists [this], previous_sql, (Some (extract_candidate_sql cand)).
      split; [reflexivity|]. unfold loop_post. cbn [length map firstn].
      repeat split; auto; try lia; try discriminate.
      exists [], this. repeat split; auto.
    + destruct (IH g' (extract_candidate_sql cand) (join (py " | ") errs)
                   (done ++ [this]))
        as (made & prev' & final & Hloop & Hlen & Hne & Hnum & Hall & Hfinal).
      exists (this :: made), prev', final.
      split.
      { rewrite Hloop, <- app_assoc. reflexivity. }
      unfold loop_post. cbn [length map firstn].
      split; [lia|]. split; [discriminate|].
      split; [now rewrite Hnum|].
      split; [now constructor|].
      destruct final as [f|].
      * destruct Hfinal as (init & a & -> & Ha & Hf & Hinit).
        exists (this :: init), a. repeat split; auto.
      * destruct Hfinal as (Hl & Hfail & Hprev).
        split; [lia|]. split; [now constructor|].
        rewrite last_cons_default. exact Hprev.
Qed.

Abbreviation run_it :=
  (run forbidden_iter tables_iter sqlparse_parse G make_generator gen).

Lemma final_of_None (previous_sql : str) : final_of None previous_sql = previous_sql.
Proof. destruct previous_sql; reflexivity. Qed.

Lemma run_unfold (question model_name : str) (max_retries : Z) :
  run_it question model_name max_retries =
  (g <- make_generator model_name ;;
   looped <- loop question (range 1 (max_retries + 1)) g [] [] [] ;;
   let '(made, previous_sql, final) := looped in
   verdict <- validate (output_of (final_of final previous_sql)) ;;
   Return {| attempts := made;
             exhausted := match final with None => true | Some _ => false end;
             final_sql := final_of final previous_sql;
             output_sql := output_of (final_of final previous_sql);
             warned := negb (fst verdict) |}).
Proof. reflexivity. Qed.

Lemma run_spec (question model_name : str) (max_retries : Z) (g : G) :
  make_generator model_name = Return g ->
  exists r previous_sql final verdict,
    run_it question model_name max_retries = Return r
    /\ post (range 1 (max_retries + 1)) [] (attempts r) previous_sql final
    /\ exhausted r = match final with None => true | Some _ => false end
    /\ final_sql r = final_of final previous_sql
    /\ output_sql r = output_of (final_sql r)
    /\ validate (output_sql r) = Return verdict
    /\ warned r = negb (fst verdict).
Proof.
  intros Hg. rewrite run_unfold, Hg. cbn [bind].
  destruct (attempt_loop_spec question (range 1 (max_retries + 1)) g [] [] [])
    as (made & prev & final & Hloop & Hpost).
  rewrite Hloop. cbn [bind app].
  destruct (validate_sql_returns forbidden_iter tables_iter sqlparse_parse
              (output_of (final_of final prev))) as (passed & errs & Hv).
  rewrite Hv. cbn [bind].
  eexists _, prev, final, (passed, errs).
  split; [reflexivity|]. cbn. auto 10.
Qed.

Lemma run_attempts_fit (question model_name : str) (max_retries : Z) (r : RunResult) :
  run_it question model_name max_retries = Return r ->
  Forall attempt_fits (attempts r).
Proof.
  intros Hrun.
  destruct (make_generator model_name) as [g|e] eqn:Hg.
  - destruct (run_spec question model_name max_retries g Hg)
      as (r' & prev & final & v & Hrun' & Hpost & _).
    rewrite Hrun in Hrun'. injection Hrun' as <-. apply Hpost.
  - rewrite run_unfold, Hg in Hrun. discriminate Hrun.
Qed.

Lemma run_raises (question model_name : str) (max_retries : Z) (e : exn) :
  make_generator model_name = Raise e ->
  run_it question model_name max_retries = Raise e.
Proof. intros H. rewrite run_unfold, H. reflexivity. Qed.

Lemma loop_post_all_failed (todo : list Z) (previous_sql : str)
      (made : list Attempt) (previous_sql' : str) (final : option str) :
  post todo previous_sql made previous_sql' final ->
  Forall (fun a => ok a = false) made ->
  final = None
  /\ length made = length todo
  /\ previous_sql' = last (map candidate_sql made) previous_sql.
Proof.
  intros (_ & _ & _ & _ & Hfinal) Hfail.
  destruct final as [f|]; [|tauto].
  destruct Hfinal as (init & a & -> & Ha & _).
  apply Forall_app in Hfail. destruct Hfail as [_ Hfail].
  inversion Hfail as [|? ? Hok _]; subst. congruence.
Qed.

(** C3. For every question, every generator and every bound
    [max_retries >= 1], [run] ends: with the error of [make_generator]
    when the model cannot be loaded, and otherwise normally after at
    least one and at most [max_retries] attempts, numbered from 1. *)
Theorem run_attempts_bounded (question model_name : str) (max_retries : Z) :
  (1 <= max_retries)%Z ->
  (forall e,
      make_generator model_name = Raise e ->
      run_it question model_name max_retries = Raise e)
  /\ (forall g,
         make_generator model_name = Return g ->
         exists r,
           run_it question model_name max_retries = Return r
           /\ 1 <= length (attempts r)
           /\ (Z.of_nat (length (attempts r)) <= max_retries)%Z
           /\ map attempt (attempts r)
              = firstn (length (attempts r)) (range 1 (max_retries + 1))).
Proof.
  intros Hmax. split; [intros e; apply run_raises|].
  intros g Hg.
  destruct (run_spec question model_name max_retries g Hg)
    as (r & prev & final & v & Hrun & Hpost & _).
  destruct Hpost as (Hlen & Hne & Hnum & _).
  rewrite range_length in Hlen.
  exists r. split; [exact Hrun|].
  split.
  - assert (H : attempts r <> []).
    { apply Hne. intros E. apply (f_equal (@length Z)) in E.
      rewrite range_length in E. simpl in E. lia. }
    destruct (attempts r); [congruence | simpl; lia].
  - split; [lia | exact Hnum].
Qed.

Lemma generate_snd (g : G) (p : str) :
  snd (generate g p) =
  (o <- snd (gen g p) ;;
   Return (strip match o with
                 | OutList (Some t :: _) => t
                 | OutList (None :: _) => []
                 | OutList [] => py "[]"
                 | OutOther repr => repr
                 end)).
Proof.
  unfold generate_sql_from_model. destruct (gen g p) as [g' [o|e]]; [|reflexivity].
  destruct o as [[|[t|] items]|repr]; reflexivity.
Qed.

Lemma attempt_when_gen_raises (a : Attempt) :
  (forall g p, exists e, snd (gen g p) = Raise e) ->
  attempt_fits a ->
  candidate a = [] /\ candidate_sql a = py ";".
Proof.
  intros Hgen ((g & Hc) & Hsql & _).
  rewrite generate_snd in Hc.
  destruct (Hgen g (prompt a)) as [e He]. rewrite He in Hc.
  injection Hc as Hc. rewrite Hsql, <- Hc. auto.
Qed.

Lemma attempt_when_gen_returns (text : str) (a : Attempt) :
  (forall g p, snd (gen g p) = Return (OutList [Some text])) ->
  attempt_fits a ->
  candidate a = strip text.
Proof.
  intros Hgen ((g & Hc) & _).
  rewrite generate_snd, (Hgen g (prompt a)) in Hc.
  injection Hc as Hc. auto.
Qed.

Lemma last_constant {A B : Type} (f : A -> B) (c d : B) (l : list A) :
  l <> [] -> Forall (fun a => f a = c) l -> last (map f l) d = c.
Proof.
  intros Hne Hall. revert d.
  induction Hall as [|a l Ha Hl IH]; intros d; [congruence|].
  cbn [map]. rewrite last_cons_default.
  destruct l as [|b l]; [exact Ha|]. apply IH. discriminate.
Qed.

(** What [validate_sql] answers on the two candidates of the scenarios. *)
Lemma validate_semicolon (passed : bool) (errs : list str) :
  validate (py ";") = Return (passed, errs) ->
  passed = false
  /\ In msg_select_from errs /\ ~ In msg_empty errs.
Proof.
  intros Hv.
  destruct (validate_sql_cases forbidden_iter tables_iter sqlparse_parse (py ";"))
    as [[He _] | [_ (b & p & _ & _ & H)]]; [discriminate He|].
  pose proof (collected_members forbidden_iter tables_iter (strip (py ";")) b p)
    as Hm. cbv zeta in Hm.
  destruct Hm as (_ & _ & _ & _ & _ & Hsel & _ & _ & Hempty).
  assert (Hin : In msg_select_from
                   (collected forbidden_iter tables_iter (strip (py ";")) b p))
    by (apply Hsel; reflexivity).
  remember (collected forbidden_iter tables_iter (strip (py ";")) b p) as E.
  rewrite H in Hv. injection Hv as <- <-.
  split; [|split; assumption].
  destruct E; [destruct Hin | reflexivity].
Qed.

Lemma validate_drop (passed : bool) (errs : list str) :
  Permutation forbidden_iter FORBIDDEN_WORDS ->
  validate (py "DROP TABLE Users;") = Return (passed, errs) ->
  passed = false /\ In (msg_forbidden [py "drop"]) errs.
Proof.
  intros Hperm Hv.
  assert (Hdrop : contains_forbidden forbidden_iter (strip (py "DROP TABLE Users;"))
                  = [py "drop"]).
  { apply Permutation_length_1_inv.
    apply (contains_forbidden_order forbidden_iter
             (strip (py "DROP TABLE Users;")) Hperm). }
  destruct (validate_sql_reports_forbidden forbidden_iter tables_iter sqlparse_parse
              (py "DROP TABLE Users;")) as (errs' & Hv' & Hin).
  - rewrite Hdrop. discriminate.
  - reflexivity.
  - rewrite Hv' in Hv. injection Hv as <- <-.
    rewrite Hdrop in Hin. auto.
Qed.

(** C4, on the code.  When the generator raises on every call, [run]
    makes [max_retries] attempts; in each the raw text is empty but the
    candidate given to the validator is [;], which fails for the missing
    SELECT and FROM and not as "Empty SQL."; [final_sql] and the printed
    line are [;]. *)
Theorem run_generation_always_raises
        (question model_name : str) (max_retries : Z) (g : G) :
  (forall g p, exists e, snd (gen g p) = Raise e) ->
  make_generator model_name = Return g ->
  (1 <= max_retries)%Z ->
  exists r,
    run_it question model_name max_retries = Return r
    /\ length (attempts r) = Z.to_nat max_retries
    /\ Forall (fun a =>
                 candidate a = []
                 /\ candidate_sql a = py ";"
                 /\ ok a = false
                 /\ In msg_select_from (errors a)
                 /\ ~ In msg_empty (errors a)) (attempts r)
    /\ exhausted r = true
    /\ final_sql r = py ";"
    /\ output_sql r = py ";"
    /\ warned r = true.
Proof.
  intros Hgen Hg Hmax.
  destruct (run_spec question model_name max_retries g Hg)
    as (r & prev & final & v & Hrun & Hpost & Hex & Hfin & Hout & Hv & Hw).
  assert (Hall : Forall (fun a =>
                   candidate a = []
                   /\ candidate_sql a = py ";"
                   /\ ok a = false
                   /\ In msg_select_from (errors a)
                   /\ ~ In msg_empty (errors a)) (attempts r)).
  { destruct Hpost as (_ & _ & _ & Hok & _).
    eapply Forall_impl; [|exact Hok]. intros a Ha.
    destruct (attempt_when_gen_raises a Hgen Ha) as [Hc Hsql].
    destruct Ha as (_ & _ & Hva). rewrite Hsql in Hva.
    apply validate_semicolon in Hva. destruct Hva as (H1 & H2 & H3).
    repeat split; assumption. }
  assert (Hfail : Forall (fun a => ok a = false) (attempts r)).
  { eapply Forall_impl; [|exact Hall]. intros a Ha. cbv beta in Ha. tauto. }
  destruct (loop_post_all_failed _ _ _ _ _ Hpost Hfail) as (-> & Hlen & Hprev).
  rewrite range_length in Hlen.
  assert (Hne : attempts r <> []).
  { intros E. rewrite E in Hlen. simpl in Hlen. lia. }
  assert (Hlast : prev = py ";").
  { rewrite Hprev. apply last_constant; [exact Hne|].
    eapply Forall_impl; [|exact Hall]. intros a Ha. cbv beta in Ha. tauto. }
  rewrite final_of_None, Hlast in Hfin.
  rewrite Hfin in Hout. change (output_of (py ";")) with (py ";") in Hout.
  rewrite Hout in Hv. destruct v as [passed errs].
  apply validate_semicolon in Hv. destruct Hv as [-> _].
  exists r. repeat split; auto.
  replace (Z.to_nat max_retries) with (Z.to_nat (max_retries + 1 - 1))
    by (f_equal; lia).
  exact Hlen.
Qed.

(** C5. When no attempt passes validation, the loop ends without a
    validated statement after [max_retries] attempts and [final_sql] is
    the candidate of the last attempt (the empty string when there was
    none).  With a generator that always returns [DROP TABLE Users;],
    every attempt fails with the forbidden-keyword error naming [drop],
    and [final_sql] and the printed line are [DROP TABLE Users;], with
    the final warning. *)
Theorem run_exhausted_keeps_last_candidate
        (question model_name : str) (max_retries : Z) :
  (forall r,
      run_it question model_name max_retries = Return r ->
      Forall (fun a => ok a = false) (attempts r) ->
      exhausted r = true
      /\ length (attempts r) = Z.to_nat max_retries
      /\ final_sql r = last (map candidate_sql (attempts r)) [])
  /\ (forall g,
         (forall g p,
             snd (gen g p) = Return (OutList [Some (py "DROP TABLE Users;")])) ->
         Permutation forbidden_iter FORBIDDEN_WORDS ->
         make_generator model_name = Return g ->
         (1 <= max_retries)%Z ->
         exists r,
           run_it question model_name max_retries = Return r
           /\ length (attempts r) = Z.to_nat max_retries
           /\ Forall (fun a =>
                        candidate_sql a = py "DROP TABLE Users;"
                        /\ ok a = false
                        /\ In (py "Forbidden keyword(s) present: drop") (errors a))
                     (attempts r)
           /\ exhausted r = true
           /\ final_sql r = py "DROP TABLE Users;"
           /\ output_sql r = py "DROP TABLE Users;"
           /\ warned r = true).
Proof.
  assert (Hgeneral : forall r,
             run_it question model_name max_retries = Return r ->
             Forall (fun a => ok a = false) (attempts r) ->
             exhausted r = true
             /\ length (attempts r) = Z.to_nat max_retries
             /\ final_sql r = last (map candidate_sql (attempts r)) []).
  { intros r Hrun Hfail.
    destruct (make_generator model_name) as [g|e] eqn:Hg.
    2:{ rewrite (run_raises question model_name max_retries e Hg) in Hrun.
        discriminate Hrun. }
    destruct (run_spec question model_name max_retries g Hg)
      as (r' & prev & final & v & Hrun' & Hpost & Hex & Hfin & _).
    rewrite Hrun in Hrun'. injection Hrun' as <-.
    destruct (loop_post_all_failed _ _ _ _ _ Hpost Hfail) as (-> & Hlen & Hprev).
    rewrite range_length in Hlen. rewrite final_of_None in Hfin.
    split; [exact Hex|]. split; [|congruence].
    rewrite Hlen. f_equal. lia. }
  split; [exact Hgeneral|].
  intros g Hgen Hperm Hg Hmax.
  destruct (run_spec question model_name max_retries g Hg)
    as (r & prev & final & v & Hrun & Hpost & Hex & Hfin & Hout & Hv & Hw).
  assert (Hall : Forall (fun a =>
                   candidate_sql a = py "DROP TABLE Users;"
                   /\ ok a = false
                   /\ In (py "Forbidden keyword(s) present: drop") (errors a))
                 (attempts r)).
  { destruct Hpost as (_ & _ & _ & Hok & _).
    eapply Forall_impl; [|exact Hok]. intros a Ha.
    pose proof (attempt_when_gen_returns _ a Hgen Ha) as Hc.
    destruct Ha as (_ & Hsql & Hva). rewrite Hc in Hsql.
    change (extract_candidate_sql (strip (py "DROP TABLE Users;")))
      with (py "DROP TABLE Users;") in Hsql.
    rewrite Hsql in Hva. apply (validate_drop _ _ Hperm) in Hva. tauto. }
  assert (Hfail : Forall (fun a => ok a = false) (attempts r)).
  { eapply Forall_impl; [|exact Hall]. intros a Ha. cbv beta in Ha. tauto. }
  destruct (Hgeneral r Hrun Hfail) as (He & Hlen & Hlast).
  assert (Hne : attempts r <> []).
  { intros E. rewrite E in Hlen. simpl in Hlen. lia. }
  assert (Hfinal : final_sql r = py "DROP TABLE Users;").
  { rewrite Hlast. apply last_constant; [exact Hne|].
    eapply Forall_impl; [|exact Hall]. intros a Ha. cbv beta in Ha. tauto. }
  rewrite Hfinal in Hout.
  change (output_of (py "DROP TABLE Users;")) with (py "DROP TABLE Users;") in Hout.
  rewrite Hout in Hv. destruct v as [passed errs].
  apply (validate_drop _ _ Hperm) in Hv. destruct Hv as [-> _].
  exists r. repeat split; auto.
Qed.

End RunProperties.

(** C10. The extraction step never yields an empty candidate, nor one
    that is blank: without a primary match and without a final
    semicolon a semicolon is appended, so an empty raw text gives [;];
    the validator therefore never answers "Empty SQL." on an extracted
    candidate, and no attempt of [run] has that error. *)
Theorem extracted_candidate_never_empty
        (fi ti : list str) (parse : str -> result (list Statement)) (raw : str) :
  extract_candidate_sql raw <> []
  /\ is_empty (strip (extract_candidate_sql raw)) = false
  /\ (re_search_select raw = None ->
      endswith (collapsed raw) (py ";") = false ->
      extract_candidate_sql raw = collapsed raw ++ py ";")
  /\ extract_candidate_sql [] = py ";"
  /\ (exists passed errs,
        validate_sql fi ti parse (extract_candidate_sql raw) = Return (passed, errs)
        /\ ~ In msg_empty errs)
  /\ (forall G make_generator gen question model_name max_retries r,
        run fi ti parse G make_generator gen question model_name max_retries
        = Return r ->
        Forall (fun a => is_empty (candidate_sql a) = false
                         /\ ~ In msg_empty (errors a)) (attempts r)).
Proof.
  pose proof (extract_candidate_sql_tidy raw) as Ht.
  pose proof (tidy_nonempty _ Ht) as Hne.
  split; [intros H; rewrite H in Hne; discriminate Hne|].
  split; [now rewrite (strip_tidy _ Ht)|].
  split.
  { intros Hnone Hend. rewrite extract_candidate_sql_unfold, Hnone.
    unfold with_semicolon. rewrite Hend. reflexivity. }
  split; [reflexivity|].
  split.
  { destruct (validate_sql_nonempty_no_msg_empty fi ti parse
                (extract_candidate_sql raw)) as (errs & Hv & Hno).
    { now rewrite (strip_tidy _ Ht). }
    eauto. }
  intros G make_generator gen question model_name max_retries r Hrun.
  pose proof (run_attempts_fit fi ti parse G make_generator gen
                question model_name max_retries r Hrun) as Hfit.
  eapply Forall_impl; [|exact Hfit].
  intros a (_ & Hsql & Hva).
  pose proof (extract_candidate_sql_tidy (candidate a)) as Hta.
  rewrite <- Hsql in Hta.
  split; [now apply tidy_nonempty|].
  destruct (validate_sql_nonempty_no_msg_empty fi ti parse (candidate_sql a))
    as (errs & Hv & Hno).
  { rewrite (strip_tidy _ Hta). now apply tidy_nonempty. }
  rewrite Hv in Hva. injection Hva as _ <-. exact Hno.
Qed.

Lemma extracted_candidate_never_empty_witness :
  extract_candidate_sql (py "list   the users
please") = py "list   the users please;".
Proof.
  apply (proj1 (proj2 (proj2
           (extracted_candidate_never_empty FORBIDDEN_WORDS ALLOWED_TABLES
              parse_whole (py "list   the users
please"))))).
  - reflexivity.
  - reflexivity.
Defined.

(** ** Concrete runs *)

Lemma run_attempts_bounded_witness :
  exists r,
    run FORBIDDEN_WORDS ALLOWED_TABLES parse_whole nat load_ok gen_raising
        (py "List all users who placed an order.") (py "bigscience/bloom-3b") 3
    = Return r
    /\ 1 <= length (attempts r)
    /\ (Z.of_nat (length (attempts r)) <= 3)%Z.
Proof.
  destruct (proj2 (run_attempts_bounded
                     FORBIDDEN_WORDS ALLOWED_TABLES parse_whole nat load_ok
                     gen_raising (py "List all users who placed an order.")
                     (py "bigscience/bloom-3b") 3 ltac:(lia)) 0 eq_refl)
    as (r & Hrun & Hone & Hmax & _).
  exists r. auto.
Defined.

Lemma run_generation_always_raises_witness :
  exists r,
    run FORBIDDEN_WORDS ALLOWED_TABLES parse_whole nat load_ok gen_raising
        (py "List all users who placed an order.") (py "bigscience/bloom-3b") 3
    = Return r
    /\ length (attempts r) = 3
    /\ final_sql r = py ";"
    /\ output_sql r = py ";".
Proof.
  destruct (run_generation_always_raises
              FORBIDDEN_WORDS ALLOWED_TABLES parse_whole nat load_ok gen_raising
              (py "List all users who placed an order.")
              (py "bigscience/bloom-3b") 3 0)
    as (r & Hrun & Hlen & _ & _ & Hfinal & Hout & _).
  - intros g p. eexists. reflexivity.
  - reflexivity.
  - lia.
  - exists r. auto.
Defined.

Lemma run_exhausted_keeps_last_candidate_witness :
  exists r,
    run FORBIDDEN_WORDS ALLOWED_TABLES parse_whole nat load_ok gen_drop
        (py "Remove the users table.") (py "bigscience/bloom-3b") 2
    = Return r
    /\ length (attempts r) = 2
    /\ exhausted r = true
    /\ final_sql r = py "DROP TABLE Users;"
    /\ output_sql r = py "DROP TABLE Users;"
    /\ warned r = true.
Proof.
  destruct (proj2 (run_exhausted_keeps_last_candidate
                     FORBIDDEN_WORDS ALLOWED_TABLES parse_whole nat load_ok
                     gen_drop (py "Remove the users table.")
                     (py "bigscience/bloom-3b") 2) 0)
    as (r & Hrun & Hlen & _ & Hex & Hfinal & Hout & Hw).
  - intros g p. reflexivity.
  - apply Permutation_refl.
  - reflexivity.
  - lia.
  - exists r. auto 10.
Defined.

(* ================================================================== *)
(** * Further properties of the validator *)

(** ** Trimming, once more *)

Lemma lstrip_spaces_app (w s : str) :
  forallb isspace w = true -> lstrip (w ++ s) = lstrip s.
Proof.
  induction w as [|c w IH]; simpl; [reflexivity|].
  intros H. apply andb_true_iff in H. destruct H as [Hc Hw].
  rewrite Hc. now apply IH.
Qed.

Lemma lstrip_spaces (w : str) : forallb isspace w = true -> lstrip w = [].
Proof.
  intros H. rewrite <- (app_nil_r w). now rewrite lstrip_spaces_app.
Qed.

Lemma rstrip_app_spaces (s w : str) :
  forallb isspace w = true -> rstrip (s ++ w) = rstrip s.
Proof.
  intros H. unfold rstrip. rewrite rev_app_distr, lstrip_spaces_app; [reflexivity|].
  rewrite forallb_forall in *. intros x Hx. apply H. now apply in_rev.
Qed.

Lemma lstrip_app (s t : str) :
  lstrip (s ++ t) = if is_empty (lstrip s) then lstrip t else lstrip s ++ t.
Proof.
  induction s as [|c s IH]; simpl; [now destruct (lstrip t)|].
  destruct (isspace c); [exact IH | reflexivity].
Qed.

Lemma strip_padding (w1 s w2 : str) :
  forallb isspace w1 = true -> forallb isspace w2 = true ->
  strip (w1 ++ s ++ w2) = strip s.
Proof.
  intros H1 H2. unfold strip.
  rewrite (lstrip_spaces_app w1 _ H1), lstrip_app.
  destruct (lstrip s) as [|a r] eqn:E; cbn [is_empty].
  - now rewrite (lstrip_spaces w2 H2).
  - now apply rstrip_app_spaces.
Qed.

Lemma strip_strip (s : str) : strip (strip s) = strip s.
Proof.
  destruct (strip_split s) as (w1 & w2 & Hs & H1 & H2).
  rewrite Hs at 2. symmetry. now apply strip_padding.
Qed.

Lemma validate_sql_same_trimmed
      (fi ti : list str) (parse : str -> result (list Statement)) (a b : str) :
  strip a = strip b -> validate_sql fi ti parse a = validate_sql fi ti parse b.
Proof. intros H. unfold validate_sql. rewrite H. reflexivity. Qed.

(** X1. [validate_sql] looks at its argument only after trimming it:
    whitespace around a statement does not change the verdict or the
    errors, and validating the trimmed text gives the same result. *)
Theorem validate_sql_ignores_padding
        (fi ti : list str) (parse : str -> result (list Statement))
        (w1 sql w2 : str) :
  forallb isspace w1 = true ->
  forallb isspace w2 = true ->
  validate_sql fi ti parse (w1 ++ sql ++ w2) = validate_sql fi ti parse sql
  /\ validate_sql fi ti parse (strip sql) = validate_sql fi ti parse sql.
Proof.
  intros H1 H2. split; apply validate_sql_same_trimmed.
  - now apply strip_padding.
  - apply strip_strip.
Qed.

Lemma validate_sql_ignores_padding_witness :
  validate_sql FORBIDDEN_WORDS ALLOWED_TABLES parse_whole
               (py "
   SELECT name FROM Users;  ")
  = validate_sql FORBIDDEN_WORDS ALLOWED_TABLES parse_whole
                 (py "SELECT name FROM Users;").
Proof.
  apply (proj1 (validate_sql_ignores_padding
                  FORBIDDEN_WORDS ALLOWED_TABLES parse_whole
                  (py "
   ") (py "SELECT name FROM Users;") (py "  ") eq_refl eq_refl)).
Defined.

(** ** Order and number of the errors *)

Lemma subseq_one_if_app (cond : bool) (m : str) (l1 l2 : list str) :
  subseq l1 l2 -> subseq (one_if cond m ++ l1) (m :: l2).
Proof. intros H. destruct cond; simpl; now constructor. Qed.

Lemma collected_subseq (fi ti : list str) (t : str) (balanced parse_ok : bool) :
  subseq (collected fi ti t balanced parse_ok)
         (all_messages (contains_forbidden fi t)).
Proof.
  unfold collected, all_messages.
  repeat apply subseq_one_if_app.
  rewrite <- (app_nil_r (one_if _ _)). apply subseq_one_if_app. constructor.
Qed.

Lemma subseq_In {A : Type} (l1 l2 : list A) (x : A) :
  subseq l1 l2 -> In x l1 -> In x l2.
Proof.
  induction 1 as [|y l1 l2 H IH|y l1 l2 H IH]; simpl; intuition.
Qed.

Lemma subseq_NoDup {A : Type} (l1 l2 : list A) :
  subseq l1 l2 -> NoDup l2 -> NoDup l1.
Proof.
  induction 1 as [|y l1 l2 H IH|y l1 l2 H IH]; intros Hnd.
  - constructor.
  - inversion Hnd; subst. auto.
  - inversion Hnd as [|? ? Hnin Hnd']; subst. constructor; [|auto].
    intros Hin. apply Hnin. eapply subseq_In; eauto.
Qed.

Lemma subseq_length {A : Type} (l1 l2 : list A) :
  subseq l1 l2 -> length l1 <= length l2.
Proof. induction 1; simpl; lia. Qed.

Lemma all_messages_NoDup (forb : list str) : NoDup (all_messages forb).
Proof.
  unfold all_messages.
  destruct (msg_forbidden_head forb) as [rest Hf]. rewrite Hf.
  repeat (constructor;
          [ cbn [In]; intros H;
            repeat (destruct H as [H | H]; [vm_compute in H; discriminate H|]);
            exact H | ]).
  constructor.
Qed.

(** X2. The errors of [validate_sql] come in the order of the checks,
    each at most once: the list is ["Empty SQL."] alone, or else the
    eight messages of the other checks with some left out, so it has
    at most eight entries and no entry twice. *)
Theorem validate_sql_errors_ordered
        (fi ti : list str) (parse : str -> result (list Statement))
        (sql : str) (passed : bool) (errs : list str) :
  validate_sql fi ti parse sql = Return (passed, errs) ->
  (errs = [msg_empty]
   \/ subseq errs (all_messages (contains_forbidden fi (strip sql))))
  /\ NoDup errs
  /\ length errs <= 8.
Proof.
  intros Hv.
  destruct (validate_sql_cases fi ti parse sql)
    as [[_ H] | [_ (b & p & _ & _ & H)]];
    rewrite H in Hv; injection Hv as <- <-.
  - split; [now left|]. split; [|simpl; lia].
    constructor; [intros []| constructor].
  - pose proof (collected_subseq fi ti (strip sql) b p) as Hs.
    split; [now right|]. split.
    + eapply subseq_NoDup; [exact Hs | apply all_messages_NoDup].
    + apply subseq_length in Hs. exact Hs.
Qed.

Lemma validate_sql_errors_ordered_witness :
  exists errs,
    validate_sql FORBIDDEN_WORDS ALLOWED_TABLES parse_whole
                 (py "DELETE FROM (Orders") = Return (false, errs)
    /\ NoDup errs /\ length errs <= 8.
Proof.
  eexists. split; [reflexivity|].
  apply (validate_sql_errors_ordered
           FORBIDDEN_WORDS ALLOWED_TABLES parse_whole
           (py "DELETE FROM (Orders") false _ eq_refl).
Defined.

(** ** The shape check and the known-table check *)

Lemma contains_spec (sub s : str) :
  contains sub s = true <-> exists pre post, s = pre ++ sub ++ post.
Proof.
  induction s as [|c s IH]; cbn [contains];
    rewrite orb_true_iff, startswith_app.
  - split.
    + intros [[rest H] | H]; [|discriminate]. exists [], rest. exact H.
    + intros (pre & post & H). left.
      destruct pre as [|x pre]; [|discriminate H]. exists post. exact H.
  - rewrite IH. split.
    + intros [[rest H] | (pre & post & H)].
      * exists [], rest. exact H.
      * exists (c :: pre), post. simpl. now rewrite H.
    + intros (pre & post & H). destruct pre as [|x pre].
      * left. exists post. exact H.
      * right. injection H as _ H. eauto.
Qed.

Lemma contains_lower (sub s : str) :
  contains sub (lower s) = true <-> occurs_ignoring_case sub s.
Proof.
  rewrite contains_spec. unfold occurs_ignoring_case, lower. split.
  - intros (pre' & post' & H).
    apply map_eq_app in H. destruct H as (pre & rest & -> & _ & H).
    apply map_eq_app in H. destruct H as (mid & post & -> & Hmid & _).
    eauto.
  - intros (pre & mid & post & -> & Hmid).
    exists (map lower_char pre), (map lower_char post).
    now rewrite !map_app, Hmid.
Qed.

Lemma occurs_ignoring_case_app (sub pre s post : str) :
  occurs_ignoring_case sub s -> occurs_ignoring_case sub (pre ++ s ++ post).
Proof.
  intros (a & mid & b & -> & Hmid).
  exists (pre ++ a), mid, (b ++ post). split; [|exact Hmid].
  now rewrite <- !app_assoc.
Qed.

(** X3. The shape check looks for [select] and for [from] as pieces of
    text in any letter case, not as words: it holds exactly when both
    occur somewhere, and it keeps holding when text is put before or
    after. *)
Theorem has_select_from_is_substring_test (sql : str) :
  (has_select_from sql = true <->
   occurs_ignoring_case (py "select") sql /\ occurs_ignoring_case (py "from") sql)
  /\ (forall pre post,
         has_select_from sql = true ->
         has_select_from (pre ++ sql ++ post) = true).
Proof.
  assert (H : forall s,
             has_select_from s = true <->
             occurs_ignoring_case (py "select") s
             /\ occurs_ignoring_case (py "from") s).
  { intros s. unfold has_select_from.
    now rewrite andb_true_iff, !contains_lower. }
  split; [apply H|].
  intros pre post Hs. apply H in Hs. destruct Hs as [Hsel Hfrom].
  apply H. split; now apply occurs_ignoring_case_app.
Qed.

Lemma has_select_from_is_substring_test_witness :
  has_select_from (py "-- the SelectED rows
fromage;") = true.
Proof.
  apply (proj2 (has_select_from_is_substring_test (py "SelectED rows
from")) (py "-- the ") (py "age;")).
  reflexivity.
Defined.

Lemma ALLOWED_TABLES_are_words (t : str) :
  In t ALLOWED_TABLES -> t <> [] /\ forallb isword t = true.
Proof.
  unfold ALLOWED_TABLES. simpl.
  intros H. repeat (destruct H as [<- | H]; [split; [discriminate | reflexivity]|]).
  destruct H.
Qed.

Lemma re_search_word_spec (kw s : str) :
  kw <> [] -> forallb isword kw = true ->
  re_search_word kw s = true <-> occurs_as_word kw s.
Proof.
  intros Hne Hw. unfold re_search_word, occurs_as_word.
  apply (re_search_word_from_spec kw Hne Hw).
Qed.

Lemma uses_known_tables_used (ti : list str) (sql t : str) :
  Permutation ti ALLOWED_TABLES ->
  In t (snd (uses_known_tables ti sql)) <->
  In t ALLOWED_TABLES /\ occurs_as_word t (lower sql).
Proof.
  intros Hperm. unfold uses_known_tables. cbn [snd]. rewrite filter_In. split.
  - intros [Hin Hs].
    assert (Ht : In t ALLOWED_TABLES) by (eapply Permutation_in; eauto).
    split; [exact Ht|].
    destruct (ALLOWED_TABLES_are_words t Ht) as [Hne Hw].
    now apply re_search_word_spec.
  - intros [Ht Hocc].
    destruct (ALLOWED_TABLES_are_words t Ht) as [Hne Hw]. split.
    + eapply Permutation_in; [apply Permutation_sym; exact Hperm | exact Ht].
    + now apply re_search_word_spec.
Qed.

Lemma uses_known_tables_known (ti : list str) (sql : str) :
  Permutation ti ALLOWED_TABLES ->
  fst (uses_known_tables ti sql) = true <->
  exists t, In t ALLOWED_TABLES /\ occurs_as_word t (lower sql).
Proof.
  intros Hperm.
  assert (Hfst : fst (uses_known_tables ti sql) = true <->
                 exists t, In t (snd (uses_known_tables ti sql))).
  { unfold uses_known_tables. cbn [fst snd].
    destruct (filter _ ti) as [|t l]; cbn [length]; split.
    - discriminate.
    - intros [t []].
    - intros _. exists t. now left.
    - reflexivity. }
  rewrite Hfst. split; intros [t Ht]; exists t;
    now apply (uses_known_tables_used ti sql t Hperm).
Qed.

(** X4. The known-table check is made on the lowered text: it holds
    exactly when one of [users], [orders], [products] occurs in
    [sql.lower()] with no word character right before or after it, and
    the list it returns holds exactly the tables that so occur, each
    once; what else the text names plays no part. *)
Theorem uses_known_tables_whole_word (ti : list str) (sql : str) :
  Permutation ti ALLOWED_TABLES ->
  (fst (uses_known_tables ti sql) = true <->
   exists t, In t ALLOWED_TABLES /\ occurs_as_word t (lower sql))
  /\ (forall t,
         In t (snd (uses_known_tables ti sql)) <->
         In t ALLOWED_TABLES /\ occurs_as_word t (lower sql))
  /\ NoDup (snd (uses_known_tables ti sql)).
Proof.
  intros Hperm. split; [now apply uses_known_tables_known|].
  split; [intros t; now apply uses_known_tables_used|].
  unfold uses_known_tables. cbn [snd]. apply NoDup_filter.
  apply (Permutation_NoDup (Permutation_sym Hperm)).
  unfold ALLOWED_TABLES. simpl.
  repeat (constructor;
          [ cbn [In]; intros H;
            repeat (destruct H as [H | H]; [vm_compute in H; discriminate H|]);
            exact H | ]).
  constructor.
Qed.

Lemma uses_known_tables_whole_word_witness :
  fst (uses_known_tables ALLOWED_TABLES
         (py "SELECT * FROM Invoices JOIN ORDERS ON 1 = 1;")) = true.
Proof.
  apply (proj1 (uses_known_tables_whole_word ALLOWED_TABLES
                  (py "SELECT * FROM Invoices JOIN ORDERS ON 1 = 1;")
                  (Permutation_refl ALLOWED_TABLES))).
  exists (py "orders"). split; [simpl; auto|].
  exists (py "select * from invoices join "), (py " on 1 = 1;").
  repeat split; reflexivity.
Defined.

(** ** Brackets and quotes *)

Lemma count_app (c : ascii) (s t : str) : count c (s ++ t) = count c s + count c t.
Proof. induction s as [|x s IH]; simpl; [reflexivity | rewrite IH; lia]. Qed.

Lemma count_cons_other (c b : ascii) (s : str) :
  Ascii.eqb c b = false -> count b (c :: s) = count b s.
Proof. intros H. simpl. now rewrite H. Qed.

(** X5. A text that passes the bracket check has as many closers as
    openers of each of the three kinds. *)
Theorem parentheses_match_counts (s : str) :
  parentheses_match s = Return true ->
  count "("%char s = count ")"%char s
  /\ count "["%char s = count "]"%char s
  /\ count "{"%char s = count "}"%char s.
Proof.
  intros H. apply parentheses_match_balanced in H.
  induction H as [|c s Ho Hc Hs IH|o c s t Hp Hs IHs Ht IHt].
  - repeat split.
  - unfold char_in, py in Ho, Hc. simpl in Ho, Hc.
    rewrite !orb_false_iff in Ho, Hc.
    destruct Ho as (H1 & H2 & H3 & _). destruct Hc as (H4 & H5 & H6 & _).
    rewrite !count_cons_other by assumption. exact IH.
  - apply pairs_cases in Hp.
    destruct IHs as (A1 & A2 & A3). destruct IHt as (B1 & B2 & B3).
    destruct Hp as [[-> ->] | [[-> ->] | [-> ->]]];
      cbn [count Ascii.eqb Bool.eqb]; rewrite !count_app;
      cbn [count Ascii.eqb Bool.eqb]; lia.
Qed.

Lemma parentheses_match_counts_witness :
  count "("%char (py "SELECT COUNT(*) FROM (Users);")
  = count ")"%char (py "SELECT COUNT(*) FROM (Users);").
Proof.
  apply (parentheses_match_counts (py "SELECT COUNT(*) FROM (Users);")).
  reflexivity.
Defined.

Lemma mod2_even (n : nat) : Nat.eqb (n mod 2) 0 = Nat.even n.
Proof.
  destruct (Nat.even n) eqn:E.
  - apply Nat.even_spec in E. destruct E as [m ->].
    now rewrite Nat.mul_comm, Nat.Div0.mod_mul.
  - rewrite <- Nat.negb_odd in E. apply negb_false_iff, Nat.odd_spec in E.
    destruct E as [m ->].
    now rewrite Nat.add_comm, Nat.mul_comm, Nat.Div0.mod_add.
Qed.

Lemma quotes_match_even (s : str) :
  quotes_match s = Nat.even (count "'"%char s) && Nat.even (count "034"%char s).
Proof. unfold quotes_match. now rewrite !mod2_even. Qed.

Lemma even_count_app_even (c : ascii) (s t : str) :
  Nat.even (count c s) = true ->
  Nat.even (count c (s ++ t)) = Nat.even (count c t)
  /\ Nat.even (count c (t ++ s)) = Nat.even (count c t).
Proof.
  intros H. rewrite !count_app, !Nat.even_add, H.
  split; destruct (Nat.even (count c t)); reflexivity.
Qed.

(** X6. The quote check depends only on the parity of the two counts:
    it holds exactly when the apostrophes are even in number and the
    double quotes are even in number, two texts with the same two
    parities get the same verdict, and so, before or after a piece of
    text that passes, the verdict on the whole is the verdict on the
    rest, whatever the order of the quotes. *)
Theorem quotes_match_parity :
  (forall s,
      quotes_match s = true <->
      Nat.even (count "'"%char s) = true /\ Nat.even (count "034"%char s) = true)
  /\ (forall s t,
         Nat.even (count "'"%char s) = Nat.even (count "'"%char t) ->
         Nat.even (count "034"%char s) = Nat.even (count "034"%char t) ->
         quotes_match s = quotes_match t)
  /\ (forall s t,
         quotes_match s = true ->
         quotes_match (s ++ t) = quotes_match t
         /\ quotes_match (t ++ s) = quotes_match t).
Proof.
  split; [|split].
  - intros s. now rewrite quotes_match_even, andb_true_iff.
  - intros s t H1 H2. now rewrite !quotes_match_even, H1, H2.
  - intros s t H. rewrite quotes_match_even, andb_true_iff in H.
    destruct H as [H1 H2].
    destruct (even_count_app_even "'"%char s t H1) as [A1 A2].
    destruct (even_count_app_even "034"%char s t H2) as [B1 B2].
    rewrite !quotes_match_even, A1, A2, B1, B2. auto.
Qed.

Lemma quotes_match_parity_witness :
  quotes_match (py "WHERE name = 'a'" ++ py " AND email = 'it''s")
  = quotes_match (py " AND email = 'it''s").
Proof.
  exact (proj1 (proj2 (proj2 quotes_match_parity)
                  (py "WHERE name = 'a'") (py " AND email = 'it''s") eq_refl)).
Defined.

(** ** What an accepted statement looks like *)

Lemma contains_forbidden_In (fi : list str) (sql kw : str) :
  Permutation fi FORBIDDEN_WORDS ->
  In kw (contains_forbidden fi sql) <->
  In kw FORBIDDEN_WORDS /\ occurs_as_whole_word kw sql.
Proof.
  intros Hperm. unfold contains_forbidden. rewrite filter_In. split.
  - intros [Hin Hs].
    assert (Hkw : In kw FORBIDDEN_WORDS) by (eapply Permutation_in; eauto).
    split; [exact Hkw|].
    destruct (FORBIDDEN_WORDS_are_words kw Hkw) as [Hne Hw].
    now apply re_search_word_lower.
  - intros [Hkw Hocc].
    destruct (FORBIDDEN_WORDS_are_words kw Hkw) as [Hne Hw]. split.
    + eapply Permutation_in; [apply Permutation_sym; exact Hperm | exact Hkw].
    + now apply re_search_word_lower.
Qed.

Lemma contains_forbidden_lowered (fi : list str) (sql kw : str) :
  Permutation fi FORBIDDEN_WORDS ->
  In kw (contains_forbidden fi sql) <->
  In kw FORBIDDEN_WORDS /\ occurs_as_word kw (lower sql).
Proof.
  intros Hperm. unfold contains_forbidden. rewrite filter_In. split.
  - intros [Hin Hs].
    assert (Hkw : In kw FORBIDDEN_WORDS) by (eapply Permutation_in; eauto).
    split; [exact Hkw|].
    destruct (FORBIDDEN_WORDS_are_words kw Hkw) as [Hne Hw].
    now apply re_search_word_spec.
  - intros [Hkw Hocc].
    destruct (FORBIDDEN_WORDS_are_words kw Hkw) as [Hne Hw]. split.
    + eapply Permutation_in; [apply Permutation_sym; exact Hperm | exact Hkw].
    + now apply re_search_word_spec.
Qed.

Lemma not_false_true (b : bool) : ~ b = false -> b = true.
Proof. destruct b; congruence. Qed.

(** X7. A statement that [validate_sql] accepts has, once trimmed,
    exactly one semicolon, which is its last character; it is
    well-bracketed and has an even number of each quote; its lowered
    text holds no forbidden keyword and holds a schema table, each
    taken with no word character right before or after it; it holds
    [select] and [from]; and the external parser gave for it a first
    statement with a first token and a normalized text that starts with
    [select]. *)
Theorem validate_sql_accepted
        (fi ti : list str) (parse : str -> result (list Statement))
        (sql : str) (errs : list str) :
  Permutation fi FORBIDDEN_WORDS ->
  Permutation ti ALLOWED_TABLES ->
  validate_sql fi ti parse sql = Return (true, errs) ->
  errs = []
  /\ (exists x, strip sql = x ++ [";"%char] /\ count ";"%char x = 0)
  /\ balanced (strip sql)
  /\ quotes_match (strip sql) = true
  /\ (forall kw,
         In kw FORBIDDEN_WORDS -> ~ occurs_as_word kw (lower (strip sql)))
  /\ has_select_from (strip sql) = true
  /\ (exists t, In t ALLOWED_TABLES /\ occurs_as_word t (lower (strip sql)))
  /\ parse_finds_select parse (strip sql).
Proof.
  intros Hfi Hti Hv.
  destruct (validate_sql_cases fi ti parse sql)
    as [[_ H] | [_ (b & p & Hb & Hp & H)]];
    rewrite H in Hv; [discriminate Hv|].
  pose proof (collected_members fi ti (strip sql) b p) as Hm. cbv zeta in Hm.
  remember (collected fi ti (strip sql) b p) as E.
  injection Hv as Hempty <-. apply is_empty_true in Hempty. subst E.
  rewrite Hempty in Hm. cbn [In] in Hm.
  destruct Hm as (H1 & H2 & H3 & H4 & H5 & H6 & H7 & H8 & _).
  split; [exact Hempty|].
  assert (Hend : endswith (strip sql) (py ";") = true)
    by (apply not_false_true; tauto).
  apply endswith_semicolon in Hend. destruct Hend as [x Hx].
  split.
  { exists x. split; [exact Hx|].
    assert (Hc : ~ 1 < count ";"%char (strip sql)) by tauto.
    rewrite Hx, count_app in Hc. simpl in Hc. lia. }
  split.
  { apply parentheses_match_balanced. rewrite Hb. f_equal.
    apply not_false_true. tauto. }
  split; [apply not_false_true; tauto|].
  split.
  { intros kw Hkw Hocc.
    assert (Hin : In kw (contains_forbidden fi (strip sql)))
      by (apply contains_forbidden_lowered; auto).
    apply H5. intros Hnil. rewrite Hnil in Hin. destruct Hin. }
  split; [apply not_false_true; tauto|].
  split.
  { apply (uses_known_tables_known ti (strip sql) Hti).
    apply not_false_true. tauto. }
  apply basic_sqlparse_ok_true. rewrite Hp. f_equal. apply not_false_true. tauto.
Qed.

Lemma validate_sql_accepted_witness :
  exists x,
    strip (py "  SELECT name FROM Users WHERE (email = 'a');  ") = x ++ [";"%char]
    /\ count ";"%char x = 0.
Proof.
  apply (validate_sql_accepted
           FORBIDDEN_WORDS ALLOWED_TABLES parse_whole
           (py "  SELECT name FROM Users WHERE (email = 'a');  ") []
           (Permutation_refl _) (Permutation_refl _) eq_refl).
Defined.

Lemma FORBIDDEN_WORDS_NoDup : NoDup FORBIDDEN_WORDS.
Proof.
  unfold FORBIDDEN_WORDS. simpl.
  repeat (constructor;
          [ cbn [In]; intros H;
            repeat (destruct H as [H | H]; [vm_compute in H; discriminate H|]);
            exact H | ]).
  constructor.
Qed.

(** X8. The keyword scan reports each keyword at most once, however
    often it occurs, and never more than the nine of the denylist; it
    reports nothing that is not on the denylist. *)
Theorem contains_forbidden_each_once (fi : list str) (sql : str) :
  Permutation fi FORBIDDEN_WORDS ->
  NoDup (contains_forbidden fi sql)
  /\ length (contains_forbidden fi sql) <= 9
  /\ incl (contains_forbidden fi sql) FORBIDDEN_WORDS.
Proof.
  intros Hperm.
  assert (Hnd : NoDup (contains_forbidden fi sql)).
  { unfold contains_forbidden. apply NoDup_filter.
    apply (Permutation_NoDup (Permutation_sym Hperm)), FORBIDDEN_WORDS_NoDup. }
  assert (Hincl : incl (contains_forbidden fi sql) FORBIDDEN_WORDS).
  { intros kw Hin. now apply (contains_forbidden_In fi sql kw Hperm) in Hin. }
  split; [exact Hnd|]. split; [|exact Hincl].
  change 9 with (length FORBIDDEN_WORDS).
  now apply NoDup_incl_length.
Qed.

Lemma contains_forbidden_each_once_witness :
  NoDup (contains_forbidden FORBIDDEN_WORDS
           (py "drop x; DROP y; Drop z; delete from t")).
Proof.
  apply (contains_forbidden_each_once FORBIDDEN_WORDS
           (py "drop x; DROP y; Drop z; delete from t")
           (Permutation_refl FORBIDDEN_WORDS)).
Defined.

(* ================================================================== *)
(** * Further properties of the extraction step *)

Lemma upto_semicolon_app (s m : str) :
  upto_semicolon s = Some m -> exists rest, s = m ++ rest.
Proof.
  revert m. induction s as [|c s IH]; intros m; simpl; [discriminate|].
  destruct (Ascii.eqb c ";"%char).
  - intros [= <-]. exists s. reflexivity.
  - destruct (upto_semicolon s) as [m'|]; [|discriminate].
    intros [= <-]. destruct (IH m' eq_refl) as [rest ->]. exists rest. reflexivity.
Qed.

Lemma upto_semicolon_count (s m : str) :
  upto_semicolon s = Some m -> count ";"%char m = 1.
Proof.
  revert m. induction s as [|c s IH]; intros m; simpl; [discriminate|].
  destruct (Ascii.eqb c ";"%char) eqn:Hc.
  - intros [= <-]. simpl. now rewrite Hc.
  - destruct (upto_semicolon s) as [m'|]; [|discriminate].
    intros [= <-]. simpl. rewrite Hc. now apply IH.
Qed.

Lemma upto_semicolon_first (body rest : str) :
  count ";"%char body = 0 ->
  upto_semicolon (body ++ ";"%char :: rest) = Some (body ++ [";"%char]).
Proof.
  induction body as [|c body IH]; simpl; [reflexivity|].
  destruct (Ascii.eqb c ";"%char); [discriminate|].
  intros H. now rewrite IH.
Qed.

Lemma not_semicolon_of_lower (c x : ascii) :
  lower_char c = x -> isword x = true -> Ascii.eqb c ";"%char = false.
Proof.
  intros <- H. destruct (Ascii.eqb_spec c ";"%char) as [->|]; [|reflexivity].
  vm_compute in H. discriminate H.
Qed.

(** The leftmost match: no position before it matches. *)
Lemma re_search_select_leftmost (s m : str) :
  re_search_select s = Some m ->
  exists pre s',
    s = pre ++ s'
    /\ select_match_at s' = Some m
    /\ forall p q, pre = p ++ q -> q <> [] -> select_match_at (q ++ s') = None.
Proof.
  induction s as [|c s IH]; cbn [re_search_select].
  - destruct (select_match_at []) eqn:E; [|discriminate].
    intros [= <-]. exists [], []. repeat split; auto.
    intros p q Hpq Hq. destruct p, q; try discriminate; congruence.
  - destruct (select_match_at (c :: s)) eqn:E.
    + intros [= <-]. exists [], (c :: s). repeat split; auto.
      intros p q Hpq Hq. destruct p, q; try discriminate; congruence.
    + intros H. destruct (IH H) as (pre & s' & -> & Hm & Hleft).
      exists (c :: pre), s'. repeat split; auto.
      intros p q Hpq Hq. destruct p as [|x p].
      * simpl in Hpq. subst q. exact E.
      * injection Hpq as _ Hpq. now apply (Hleft p q).
Qed.

Lemma select_match_at_count (s m : str) :
  select_match_at s = Some m -> count ";"%char m = 1.
Proof.
  intros Hm. apply select_match_at_inv in Hm.
  destruct Hm as (c0 & c1 & c2 & c3 & c4 & c5 & t & b & -> & Hl & _ & Hu & ->).
  unfold lower, py in Hl. cbn [map list_ascii_of_string] in Hl.
  injection Hl as H0 H1 H2 H3 H4 H5.
  cbn [count].
  rewrite (not_semicolon_of_lower c0 _ H0 eq_refl),
          (not_semicolon_of_lower c1 _ H1 eq_refl),
          (not_semicolon_of_lower c2 _ H2 eq_refl),
          (not_semicolon_of_lower c3 _ H3 eq_refl),
          (not_semicolon_of_lower c4 _ H4 eq_refl),
          (not_semicolon_of_lower c5 _ H5 eq_refl).
  simpl. now apply (upto_semicolon_count t).
Qed.

Lemma re_search_select_count (raw m : str) :
  re_search_select raw = Some m -> count ";"%char m = 1.
Proof.
  intros H. apply re_search_select_inv in H. destruct H as (pre & s' & _ & Hm).
  now apply (select_match_at_count s').
Qed.

(** X9. When the raw text holds a match of the primary pattern, the
    candidate is a stretch of the raw text, taken at the leftmost
    position where a match starts: the pattern matches the candidate
    from its first character to its last, and the candidate has exactly
    one semicolon, its last character. *)
Theorem primary_extraction_shape (raw m : str) :
  re_search_select raw = Some m ->
  extract_candidate_sql raw = m
  /\ (exists pre post,
         raw = pre ++ m ++ post
         /\ forall p q, pre = p ++ q -> q <> [] ->
                        select_match_at (q ++ m ++ post) = None)
  /\ select_match_at m = Some m
  /\ count ";"%char m = 1
  /\ (exists x, m = x ++ [";"%char]).
Proof.
  intros H.
  split; [now apply extract_candidate_sql_match|].
  pose proof (re_search_select_fixed raw m H) as [_ [_ Hsnoc]].
  pose proof (re_search_select_count raw m H) as Hcount.
  apply re_search_select_leftmost in H.
  destruct H as (pre & s' & -> & Hm & Hleft).
  pose proof (select_match_at_fixed s' m Hm) as [Hself _].
  apply select_match_at_inv in Hm.
  destruct Hm as (c0 & c1 & c2 & c3 & c4 & c5 & t & b & -> & Hl & _ & Hu & ->).
  destruct (upto_semicolon_app t b Hu) as [rest ->].
  split.
  { exists pre, rest. split.
    - reflexivity.
    - intros p q Hpq Hq. exact (Hleft p q Hpq Hq). }
  split; [exact Hself|].
  split; [exact Hcount | exact Hsnoc].
Qed.

Lemma primary_extraction_shape_witness :
  extract_candidate_sql (py "Here you go: Select 1; select 2;") = py "Select 1;"
  /\ count ";"%char (py "Select 1;") = 1.
Proof.
  destruct (primary_extraction_shape
              (py "Here you go: Select 1; select 2;") (py "Select 1;") eq_refl)
    as (H1 & _ & _ & H2 & _).
  split; assumption.
Defined.

(** X10. A raw text that begins with a statement -- [select] in any
    letter case, not followed by a word character, then text without a
    semicolon, then a semicolon -- gives exactly that statement:
    whatever follows the first semicolon is dropped. *)
Theorem extraction_drops_trailing_text (head body rest : str) :
  lower head = py "select" ->
  isword_at (hd_error (body ++ [";"%char])) = false ->
  count ";"%char body = 0 ->
  extract_candidate_sql (head ++ body ++ ";"%char :: rest)
  = head ++ body ++ [";"%char].
Proof.
  intros Hl Hb Hc.
  assert (Hm : select_match_at (head ++ body ++ ";"%char :: rest)
               = Some (head ++ body ++ [";"%char])).
  { unfold select_match_at.
    assert (Hs : startswith (lower (head ++ body ++ ";"%char :: rest))
                            (py "select") = true).
    { apply startswith_app. unfold lower in *. rewrite map_app, Hl. eauto. }
    rewrite Hs.
    unfold lower, py in Hl. cbn [list_ascii_of_string] in Hl.
    destruct head as [|c0 [|c1 [|c2 [|c3 [|c4 [|c5 [|c6 head]]]]]]];
      try discriminate Hl.
    cbn [app skipn firstn].
    change (nth_error (c0 :: c1 :: c2 :: c3 :: c4 :: c5 :: body ++ ";"%char :: rest) 5)
      with (Some c5).
    change (nth_error (c0 :: c1 :: c2 :: c3 :: c4 :: c5 :: body ++ ";"%char :: rest) 6)
      with (hd_error (body ++ ";"%char :: rest)).
    assert (Hw : isword c5 = true).
    { injection Hl as _ _ _ _ _ H5. rewrite <- isword_lower_char, H5. reflexivity. }
    assert (Hhd : hd_error (body ++ ";"%char :: rest) = hd_error (body ++ [";"%char]))
      by (destruct body; reflexivity).
    unfold boundary. cbn [isword_at]. rewrite Hw, Hhd, Hb. cbn [xorb].
    now rewrite (upto_semicolon_first body rest Hc). }
  apply re_search_select_of_match in Hm.
  now apply extract_candidate_sql_match in Hm.
Qed.

Lemma extraction_drops_trailing_text_witness :
  extract_candidate_sql
    (py "SELECT" ++ py " name FROM Users" ++ ";"%char :: py " -- this lists; the users")
  = py "SELECT" ++ py " name FROM Users" ++ [";"%char].
Proof.
  apply (extraction_drops_trailing_text
           (py "SELECT") (py " name FROM Users") (py " -- this lists; the users")).
  - reflexivity.
  - reflexivity.
  - reflexivity.
Defined.

(** ** The fallback changes whitespace only *)

Lemma islinebreak_isspace (c : ascii) : islinebreak c = true -> isspace c = true.
Proof. each_char c. Qed.

Lemma nowhite_app (s t : str) : nowhite (s ++ t) = nowhite s ++ nowhite t.
Proof. apply filter_app. Qed.

Lemma nowhite_spaces (w : str) : forallb isspace w = true -> nowhite w = [].
Proof.
  induction w as [|c w IH]; simpl; [reflexivity|].
  intros H. apply andb_true_iff in H. destruct H as [Hc Hw].
  rewrite Hc. simpl. now apply IH.
Qed.

Lemma nowhite_strip (s : str) : nowhite (strip s) = nowhite s.
Proof.
  destruct (strip_split s) as (w1 & w2 & Hs & H1 & H2).
  rewrite Hs at 2.
  now rewrite !nowhite_app, (nowhite_spaces w1 H1), (nowhite_spaces w2 H2), app_nil_r.
Qed.

Lemma nowhite_space_cons (c : ascii) (s : str) :
  isspace c = true -> nowhite (c :: s) = nowhite s.
Proof. intros H. unfold nowhite. simpl. now rewrite H. Qed.

Lemma splitlines_from_nowhite (n : nat) :
  forall s cur,
    length s <= n ->
    concat (map nowhite (splitlines_from cur s)) = nowhite (rev cur ++ s).
Proof.
  induction n as [|n IH]; intros s cur Hlen.
  - destruct s; [|simpl in Hlen; lia]. cbn [splitlines_from].
    destruct cur as [|x cur]; [reflexivity|].
    cbn [is_empty map concat]. now rewrite !app_nil_r.
  - destruct s as [|c s]; cbn [splitlines_from].
    + destruct cur as [|x cur]; [reflexivity|].
      cbn [is_empty map concat]. now rewrite !app_nil_r.
    + simpl in Hlen. rewrite nowhite_app.
      destruct (Ascii.eqb_spec c "013"%char) as [->|Hcr].
      * destruct s as [|c' s'].
        -- cbn [map concat]. rewrite IH by (simpl; lia). reflexivity.
        -- destruct (Ascii.eqb_spec c' "010"%char) as [->|Hlf];
             cbn [map concat]; rewrite IH by (simpl in *; lia);
             cbn [rev app];
             rewrite (nowhite_space_cons "013"%char _ eq_refl);
             [rewrite (nowhite_space_cons "010"%char _ eq_refl)|];
             reflexivity.
      * destruct (islinebreak c) eqn:Hc.
        -- cbn [map concat]. rewrite IH by lia. cbn [rev app].
           now rewrite (nowhite_space_cons c s (islinebreak_isspace c Hc)).
        -- rewrite IH by lia. cbn [rev]. rewrite <- app_assoc.
           cbn [app]. now rewrite nowhite_app.
Qed.

Lemma nonblank_nowhite (ls : list str) :
  concat (map nowhite (filter nonblank ls)) = concat (map nowhite ls).
Proof.
  induction ls as [|l ls IH]; [reflexivity|].
  cbn [filter map concat]. destruct (nonblank l) eqn:E.
  - cbn [map concat]. now rewrite IH.
  - rewrite IH. unfold nonblank in E. apply negb_false_iff, is_empty_true in E.
    rewrite <- (nowhite_strip l), E. reflexivity.
Qed.

Lemma strip_all_nowhite (ls : list str) :
  concat (map nowhite (map strip ls)) = concat (map nowhite ls).
Proof.
  induction ls as [|l ls IH]; [reflexivity|].
  cbn [map concat]. now rewrite IH, nowhite_strip.
Qed.

Lemma join_space_nowhite (parts : list str) :
  nowhite (join (py " ") parts) = concat (map nowhite parts).
Proof.
  induction parts as [|p parts IH]; [reflexivity|].
  destruct parts as [|q parts].
  - cbn [join map concat]. now rewrite app_nil_r.
  - change (join (py " ") (p :: q :: parts))
      with (p ++ py " " ++ join (py " ") (q :: parts)).
    rewrite !nowhite_app, IH. reflexivity.
Qed.

Lemma collapsed_nowhite (raw : str) : nowhite (collapsed raw) = nowhite raw.
Proof.
  unfold collapsed, splitlines.
  rewrite join_space_nowhite, strip_all_nowhite, nonblank_nowhite.
  rewrite (splitlines_from_nowhite (length (strip raw))) by lia.
  apply nowhite_strip.
Qed.

(** X11. Without a match of the primary pattern, the candidate is the
    raw text with its whitespace rearranged: it is one line without
    blanks at its ends, its characters other than whitespace are those
    of the raw text in the same order, and one semicolon is added at the
    end when the collapsed text does not end with one. *)
Theorem fallback_extraction_keeps_text (raw : str) :
  re_search_select raw = None ->
  one_line (extract_candidate_sql raw)
  /\ strip (extract_candidate_sql raw) = extract_candidate_sql raw
  /\ nowhite (extract_candidate_sql raw)
     = nowhite raw
       ++ (if endswith (collapsed raw) (py ";") then [] else [";"%char]).
Proof.
  intros Hnone.
  split; [|split].
  - rewrite extract_candidate_sql_unfold, Hnone.
    apply with_semicolon_one_line, collapsed_one_line.
  - apply strip_tidy, extract_candidate_sql_tidy.
  - rewrite extract_candidate_sql_unfold, Hnone. unfold with_semicolon.
    destruct (endswith (collapsed raw) (py ";")); cbn [negb].
    + now rewrite collapsed_nowhite, app_nil_r.
    + now rewrite nowhite_app, collapsed_nowhite.
Qed.

Lemma fallback_extraction_keeps_text_witness :
  nowhite (extract_candidate_sql (py "  list
   the	users

  please  "))
  = py "listtheusersplease;".
Proof.
  apply (proj2 (proj2 (fallback_extraction_keeps_text (py "  list
   the	users

  please  ") eq_refl))).
Defined.

(* ================================================================== *)
(** * Further properties of the attempt loop *)

Lemma output_of_extracted (c : str) :
  output_of (extract_candidate_sql c)
  = extract_candidate_sql (extract_candidate_sql c).
Proof.
  pose proof (extract_candidate_sql_tidy c) as Ht.
  unfold output_of.
  destruct (re_search_select (extract_candidate_sql c)) as [m|] eqn:E.
  - rewrite (extract_candidate_sql_unfold (extract_candidate_sql c)), E.
    reflexivity.
  - rewrite (extract_candidate_sql_no_match_again c E).
    cbv zeta. rewrite (strip_tidy _ Ht), (tidy_nonempty _ Ht).
    destruct Ht as [_ Hsnoc]. apply endswith_semicolon in Hsnoc.
    rewrite Hsnoc. reflexivity.
Qed.

Lemma range_empty (lo hi : Z) : (hi <= lo)%Z -> range lo hi = [].
Proof.
  intros H. unfold range.
  replace (Z.to_nat (hi - lo)) with 0 by lia. reflexivity.
Qed.

Section LoopProperties.

Variable forbidden_iter : list str.
Variable tables_iter : list str.
Variable sqlparse_parse : str -> result (list Statement).
Variable G : Type.
Variable make_generator : str -> result G.
Variable gen : G -> str -> G * result pipeline_out.

Abbreviation validate' := (validate_sql forbidden_iter tables_iter sqlparse_parse).
Abbreviation loop' :=
  (attempt_loop forbidden_iter tables_iter sqlparse_parse G gen).
Abbreviation run' :=
  (run forbidden_iter tables_iter sqlparse_parse G make_generator gen).
Abbreviation fits' :=
  (attempt_ok forbidden_iter tables_iter sqlparse_parse G gen).
Abbreviation post' :=
  (loop_post forbidden_iter tables_iter sqlparse_parse G gen).

Lemma run_inv (question model_name : str) (max_retries : Z) (r : RunResult) :
  run' question model_name max_retries = Return r ->
  exists g previous_sql final verdict,
    make_generator model_name = Return g
    /\ post' (range 1 (max_retries + 1)) [] (attempts r) previous_sql final
    /\ exhausted r = match final with None => true | Some _ => false end
    /\ final_sql r = final_of final previous_sql
    /\ output_sql r = output_of (final_sql r)
    /\ validate' (output_sql r) = Return verdict
    /\ warned r = negb (fst verdict).
Proof.
  intros Hrun.
  destruct (make_generator model_name) as [g|e] eqn:Hg.
  - destruct (run_spec forbidden_iter tables_iter sqlparse_parse G
                make_generator gen question model_name max_retries g Hg)
      as (r' & prev & final & v & Hrun' & H).
    rewrite Hrun in Hrun'. injection Hrun' as <-.
    exists g, prev, final, v. split; [reflexivity | exact H].
  - rewrite (run_raises forbidden_iter tables_iter sqlparse_parse G
               make_generator gen question model_name max_retries e Hg) in Hrun.
    discriminate Hrun.
Qed.

Lemma post_final_sql (todo : list Z) (made : list Attempt)
      (previous_sql : str) (final : option str) :
  post' todo [] made previous_sql final ->
  final_of final previous_sql = last (map candidate_sql made) [].
Proof.
  intros (_ & _ & _ & _ & Hfinal). destruct final as [f|].
  - destruct Hfinal as (init & a & -> & _ & -> & _).
    cbn [final_of]. rewrite map_app. cbn [map]. now rewrite last_last.
  - destruct Hfinal as (_ & _ & ->). apply final_of_None.
Qed.

Lemma run_attempts_shape
      (question model_name : str) (max_retries : Z) (r : RunResult) :
  run' question model_name max_retries = Return r ->
  final_sql r = last (map candidate_sql (attempts r)) []
  /\ (forall init a, attempts r = init ++ [a] ->
                     Forall (fun b => ok b = false) init
                     /\ (exhausted r = false <-> ok a = true))
  /\ (exhausted r = true -> length (attempts r) = Z.to_nat max_retries).
Proof.
  intros Hrun.
  destruct (run_inv question model_name max_retries r Hrun)
    as (g & prev & final & v & _ & Hpost & Hex & Hfin & _).
  split; [rewrite Hfin; now apply (post_final_sql _ _ _ _ Hpost)|].
  destruct Hpost as (_ & _ & _ & _ & Hfinal).
  destruct final as [f|].
  - destruct Hfinal as (init & a & Hmade & Ha & _ & Hinit). split.
    + intros init' a' Hmade'. rewrite Hmade in Hmade'.
      apply app_inj_tail in Hmade'. destruct Hmade' as [<- <-].
      split; [exact Hinit|]. rewrite Hex, Ha. tauto.
    + rewrite Hex. discriminate.
  - destruct Hfinal as (Hlen & Hfail & _). split.
    + intros init a Hmade. rewrite Hmade in Hfail.
      apply Forall_app in Hfail. destruct Hfail as [Hinit Ha].
      split; [exact Hinit|].
      inversion Ha as [|? ? Hok _]; subst. rewrite Hex, Hok.
      split; discriminate.
    + intros _. rewrite Hlen, range_length. f_equal. lia.
Qed.

(** X12. [final_sql] is always the candidate of the last attempt made,
    validated or not, and the empty string when no attempt was made.
    The loop stops at the first candidate that validates: every attempt
    but the last failed, the run is not exhausted exactly when the last
    attempt passed, and an exhausted run has used all [max_retries]
    attempts. *)
Theorem run_stops_at_first_valid
        (question model_name : str) (max_retries : Z) (r : RunResult) :
  run' question model_name max_retries = Return r ->
  final_sql r = last (map candidate_sql (attempts r)) []
  /\ (forall init a, attempts r = init ++ [a] ->
                     Forall (fun b => ok b = false) init
                     /\ (exhausted r = false <-> ok a = true))
  /\ (exhausted r = true -> length (attempts r) = Z.to_nat max_retries).
Proof.
  intros Hrun.
  destruct (run_attempts_shape question model_name max_retries r Hrun)
    as (Hlast & Hstop & Hall).
  split; [exact Hlast|]. split; [exact Hstop | exact Hall].
Qed.

Lemma run_output_empty_or_tidy
      (question model_name : str) (max_retries : Z) (r : RunResult) :
  run' question model_name max_retries = Return r ->
  output_sql r = [] \/ tidy (output_sql r).
Proof.
  intros Hrun.
  destruct (run_inv question model_name max_retries r Hrun)
    as (g & prev & final & v & _ & Hpost & _ & Hfin & Hout & _).
  rewrite (post_final_sql _ _ _ _ Hpost) in Hfin.
  destruct Hpost as (_ & _ & _ & Hfits & _).
  destruct (attempts r) as [|a0 rest] eqn:Hmade.
  - left. rewrite Hout, Hfin. reflexivity.
  - right.
    destruct (exists_last (l := a0 :: rest)) as (init & a & Hmade');
      [discriminate|].
    rewrite Hmade' in Hfin, Hfits. rewrite map_app in Hfin. cbn [map] in Hfin.
    rewrite last_last in Hfin.
    apply Forall_app in Hfits. destruct Hfits as [_ Ha].
    inversion Ha as [|? ? (_ & Hsql & _) _]; subst.
    rewrite Hout, Hfin, Hsql, output_of_extracted.
    apply extract_candidate_sql_tidy.
Qed.

(** X13. With [max_retries] at or below zero the loop body never runs:
    no attempt is made, [final_sql] is empty, the printed line is empty
    and the final warning is logged. *)
Theorem run_without_attempts
        (question model_name : str) (max_retries : Z) (g : G) :
  make_generator model_name = Return g ->
  (max_retries <= 0)%Z ->
  run' question model_name max_retries
  = Return {| attempts := []; exhausted := true; final_sql := [];
              output_sql := []; warned := true |}.
Proof.
  intros Hg Hmax.
  rewrite run_unfold, Hg, (range_empty 1 (max_retries + 1)) by lia.
  reflexivity.
Qed.

(** X14. When at least one attempt is made, the printed line is what
    the extraction step gives on [final_sql]; it is never empty, begins
    with a non-blank character and ends with a semicolon.  It is
    [final_sql] itself exactly when [final_sql] has no match of the
    primary pattern or is its own match. *)
Theorem run_prints_extracted_statement
        (question model_name : str) (max_retries : Z) (r : RunResult) :
  run' question model_name max_retries = Return r ->
  (1 <= max_retries)%Z ->
  output_sql r = extract_candidate_sql (final_sql r)
  /\ tidy (output_sql r)
  /\ (output_sql r = final_sql r <->
      re_search_select (final_sql r) = None
      \/ re_search_select (final_sql r) = Some (final_sql r)).
Proof.
  intros Hrun Hmax.
  destruct (run_inv question model_name max_retries r Hrun)
    as (g & prev & final & v & _ & Hpost & _ & Hfin & Hout & _).
  rewrite (post_final_sql _ _ _ _ Hpost) in Hfin.
  destruct Hpost as (_ & Hne & _ & Hfits & _).
  assert (Hlast : exists c, final_sql r = extract_candidate_sql c).
  { assert (Hmade : attempts r <> []).
    { apply Hne. intros E. apply (f_equal (@length Z)) in E.
      rewrite range_length in E. simpl in E. lia. }
    destruct (exists_last Hmade) as (init & a & Hmade').
    rewrite Hmade' in Hfin, Hfits. rewrite map_app in Hfin. cbn [map] in Hfin.
    rewrite last_last in Hfin.
    apply Forall_app in Hfits. destruct Hfits as [_ Ha].
    inversion Ha as [|? ? (_ & Hsql & _) _]; subst.
    exists (candidate a). congruence. }
  destruct Hlast as [c Hc].
  rewrite Hout, Hc, output_of_extracted.
  split; [reflexivity|]. split; [apply extract_candidate_sql_tidy|].
  apply extract_candidate_sql_twice.
Qed.

End LoopProperties.

Lemma run_stops_at_first_valid_witness :
  exists r,
    run FORBIDDEN_WORDS ALLOWED_TABLES parse_whole nat load_ok gen_drop
        (py "Remove the users table.") (py "bigscience/bloom-3b") 2
    = Return r
    /\ final_sql r = last (map candidate_sql (attempts r)) [].
Proof.
  eexists. split; [reflexivity|].
  apply (proj1 (run_stops_at_first_valid
                  FORBIDDEN_WORDS ALLOWED_TABLES parse_whole nat load_ok gen_drop
                  (py "Remove the users table.") (py "bigscience/bloom-3b") 2 _
                  eq_refl)).
Defined.

Lemma run_without_attempts_witness :
  run FORBIDDEN_WORDS ALLOWED_TABLES parse_whole nat load_ok gen_drop
      (py "Remove the users table.") (py "bigscience/bloom-3b") 0
  = Return {| attempts := []; exhausted := true; final_sql := [];
              output_sql := []; warned := true |}.
Proof.
  apply (run_without_attempts
           FORBIDDEN_WORDS ALLOWED_TABLES parse_whole nat load_ok gen_drop
           (py "Remove the users table.") (py "bigscience/bloom-3b") 0 0 eq_refl).
  lia.
Defined.

Lemma run_prints_extracted_statement_witness :
  exists r,
    run FORBIDDEN_WORDS ALLOWED_TABLES parse_whole nat load_ok gen_drop
        (py "Remove the users table.") (py "bigscience/bloom-3b") 2
    = Return r
    /\ output_sql r = extract_candidate_sql (final_sql r).
Proof.
  eexists. split; [reflexivity|].
  apply (proj1 (run_prints_extracted_statement
                  FORBIDDEN_WORDS ALLOWED_TABLES parse_whole nat load_ok gen_drop
                  (py "Remove the users table.") (py "bigscience/bloom-3b") 2 _
                  eq_refl ltac:(lia))).
Defined.

Lemma range_cons (lo hi : Z) :
  (lo < hi)%Z -> range lo hi = lo :: range (lo + 1) hi.
Proof.
  intros H. unfold range.
  replace (Z.to_nat (hi - lo)) with (S (Z.to_nat (hi - (lo + 1)))) by lia.
  cbn [seq map]. f_equal; [lia|].
  rewrite <- seq_shift, map_map. apply map_ext. intros i. lia.
Qed.

Lemma fed_back_next (question : str) (before : list Attempt) :
  forall previous_sql error_hint a b after,
    fed_back question previous_sql error_hint (before ++ a :: b :: after) ->
    prompt b = BASE_PROMPT_format question (candidate_sql a)
                                  (join (py " | ") (errors a)).
Proof.
  induction before as [|x before IH]; intros p h a b after Hfed.
  - destruct Hfed as (_ & Hb & _). exact Hb.
  - destruct Hfed as (_ & Hrest). exact (IH _ _ _ _ _ Hrest).
Qed.

Section FeedbackProperties.

Variable forbidden_iter : list str.
Variable tables_iter : list str.
Variable sqlparse_parse : str -> result (list Statement).
Variable G : Type.
Variable make_generator : str -> result G.
Variable gen : G -> str -> G * result pipeline_out.

Abbreviation validate'' := (validate_sql forbidden_iter tables_iter sqlparse_parse).
Abbreviation loop'' :=
  (attempt_loop forbidden_iter tables_iter sqlparse_parse G gen).
Abbreviation run'' :=
  (run forbidden_iter tables_iter sqlparse_parse G make_generator gen).

Lemma attempt_loop_fed_back (question : str) (todo : list Z) :
  forall g previous_sql error_hint done made previous_sql' final,
    loop'' question todo g previous_sql error_hint done
    = Return (done ++ made, previous_sql', final) ->
    fed_back question previous_sql error_hint made.
Proof.
  induction todo as [|k todo IH];
    intros g previous_sql error_hint done made prev' final; cbn [attempt_loop].
  - intros [= Hdone _ _].
    rewrite <- (app_nil_r done) in Hdone at 1.
    apply app_inv_head in Hdone. subst made. exact I.
  - set (p := BASE_PROMPT_format question previous_sql error_hint).
    destruct (generate_sql_from_model G gen g p) as [g' generated].
    assert (Hcand : exists cand,
               try_except generated (fun _ => Return []) = Return cand).
    { destruct generated; simpl; eauto. }
    destruct Hcand as [cand Hcand]. rewrite Hcand. cbn [bind].
    destruct (validate_sql_returns forbidden_iter tables_iter sqlparse_parse
                (extract_candidate_sql cand)) as (passed & errs & Hv).
    rewrite Hv. cbn [bind].
    set (this := {| attempt := k; prompt := p; candidate := cand;
                    candidate_sql := extract_candidate_sql cand;
                    ok := passed; errors := errs |}).
    destruct passed.
    + intros [= Hdone _ _]. apply app_inv_head in Hdone. subst made.
      split; [reflexivity | exact I].
    + intros Hloop.
      destruct (attempt_loop_spec forbidden_iter tables_iter sqlparse_parse G gen
                  question todo g' (extract_candidate_sql cand)
                  (join (py " | ") errs) (done ++ [this]))
        as (made' & prev'' & final' & Hloop' & _).
      pose proof Hloop' as Hloop''.
      rewrite Hloop in Hloop''. injection Hloop'' as Hmade _ _.
      rewrite <- app_assoc in Hmade. apply app_inv_head in Hmade. subst made.
      split; [reflexivity|].
      exact (IH g' _ _ (done ++ [this]) made' prev'' final' Hloop').
Qed.

(** X15. The loop feeds each failure back: the first prompt is the
    template filled with the question and two empty fields, and the
    prompt of every later attempt holds the candidate of the attempt
    before it and that attempt's error messages joined by [" | "]. *)
Theorem run_feeds_errors_back
        (question model_name : str) (max_retries : Z) (r : RunResult) :
  run'' question model_name max_retries = Return r ->
  fed_back question [] [] (attempts r)
  /\ (forall before a b after,
         attempts r = before ++ a :: b :: after ->
         ok a = false
         /\ prompt b = BASE_PROMPT_format question (candidate_sql a)
                                          (join (py " | ") (errors a))).
Proof.
  intros Hrun.
  assert (Hfed : fed_back question [] [] (attempts r)).
  { rewrite run_unfold in Hrun.
    destruct (make_generator model_name) as [g|e]; [|discriminate Hrun].
    cbn [bind] in Hrun.
    destruct (loop'' question (range 1 (max_retries + 1)) g [] [] [])
      as [[[made prev] final]|e] eqn:Hloop; [|discriminate Hrun].
    cbn [bind] in Hrun.
    destruct (validate'' (output_of (final_of final prev))) as [v|e];
      [|discriminate Hrun].
    injection Hrun as <-. cbn [attempts].
    exact (attempt_loop_fed_back question _ g [] [] [] made prev final Hloop). }
  split; [exact Hfed|].
  intros before a b after Hmade.
  pose proof (run_attempts_shape forbidden_iter tables_iter sqlparse_parse
                G make_generator gen question model_name max_retries r Hrun)
    as (_ & Hstop & _).
  split.
  - destruct (exists_last (l := b :: after)) as (mid & z & Hz); [discriminate|].
    rewrite Hz in Hmade.
    change (before ++ a :: mid ++ [z]) with (before ++ (a :: mid) ++ [z]) in Hmade.
    rewrite app_assoc in Hmade.
    destruct (Hstop _ _ Hmade) as [Hinit _].
    apply Forall_app in Hinit. destruct Hinit as [_ Hinit].
    now inversion Hinit.
  - rewrite Hmade in Hfed. exact (fed_back_next _ _ _ _ _ _ _ Hfed).
Qed.

(** X16. In every attempt of [run] the candidate given to the validator
    begins with a non-blank character and ends with a semicolon, so the
    termination check never fails in the loop and no error hint ever
    asks for the final semicolon. *)
Theorem run_candidates_end_with_semicolon
        (question model_name : str) (max_retries : Z) (r : RunResult) :
  run'' question model_name max_retries = Return r ->
  Forall (fun a => tidy (candidate_sql a)
                   /\ ~ In msg_semicolon (errors a)) (attempts r).
Proof.
  intros Hrun.
  pose proof (run_attempts_fit forbidden_iter tables_iter sqlparse_parse G
                make_generator gen question model_name max_retries r Hrun) as Hfit.
  eapply Forall_impl; [|exact Hfit].
  intros a (_ & Hsql & Hva).
  pose proof (extract_candidate_sql_tidy (candidate a)) as Ht.
  rewrite <- Hsql in Ht. split; [exact Ht|].
  destruct (validate_sql_cases forbidden_iter tables_iter sqlparse_parse
              (candidate_sql a)) as [[He _] | [_ (b & p & _ & _ & H)]].
  - rewrite (strip_tidy _ Ht), (tidy_nonempty _ Ht) in He. discriminate He.
  - rewrite H in Hva. injection Hva as _ <-.
    pose proof (collected_members forbidden_iter tables_iter
                  (strip (candidate_sql a)) b p) as Hm. cbv zeta in Hm.
    destruct Hm as (_ & Hsemi & _). rewrite Hsemi, (strip_tidy _ Ht).
    destruct Ht as [_ Hsnoc]. apply endswith_semicolon in Hsnoc.
    rewrite Hsnoc. discriminate.
Qed.

(** X17. The raw text of every attempt comes back trimmed: it is what
    the pipeline returned with the whitespace at both ends removed, or
    the empty text when the pipeline raised. *)
Theorem run_candidates_are_trimmed
        (question model_name : str) (max_retries : Z) (r : RunResult) :
  run'' question model_name max_retries = Return r ->
  Forall (fun a => strip (candidate a) = candidate a) (attempts r).
Proof.
  intros Hrun.
  pose proof (run_attempts_fit forbidden_iter tables_iter sqlparse_parse G
                make_generator gen question model_name max_retries r Hrun) as Hfit.
  eapply Forall_impl; [|exact Hfit].
  intros a ((g & Hc) & _).
  rewrite generate_snd in Hc.
  destruct (snd (gen g (prompt a))) as [o|e]; cbn [bind try_except] in Hc;
    injection Hc as <-; [apply strip_strip | reflexivity].
Qed.

(** X18. When the generator's first answer gives a candidate that
    validates, [run] makes exactly one attempt and that candidate is
    [final_sql]; nothing is retried. *)
Theorem run_first_candidate_valid
        (question model_name : str) (max_retries : Z) (g : G)
        (text : str) (items : list (option str)) :
  make_generator model_name = Return g ->
  (1 <= max_retries)%Z ->
  snd (gen g (BASE_PROMPT_format question [] []))
  = Return (OutList (Some text :: items)) ->
  validate'' (extract_candidate_sql (strip text)) = Return (true, []) ->
  exists r,
    run'' question model_name max_retries = Return r
    /\ length (attempts r) = 1
    /\ exhausted r = false
    /\ final_sql r = extract_candidate_sql (strip text).
Proof.
  intros Hg Hmax Hgen Hv.
  rewrite run_unfold, Hg, (range_cons 1 (max_retries + 1)) by lia.
  cbn [bind attempt_loop].
  pose proof (generate_snd G gen g (BASE_PROMPT_format question [] [])) as Hs.
  destruct (generate_sql_from_model G gen g (BASE_PROMPT_format question [] []))
    as [g' generated].
  cbn [snd] in Hs. rewrite Hgen in Hs. cbn [bind] in Hs. subst generated.
  cbn [try_except bind]. rewrite Hv. cbn [bind app].
  destruct (validate_sql_returns forbidden_iter tables_iter sqlparse_parse
              (output_of (final_of (Some (extract_candidate_sql (strip text))) [])))
    as (passed & errs & Hout).
  rewrite Hout. cbn [bind].
  eexists. split; [reflexivity|]. cbn. auto.
Qed.

End FeedbackProperties.

Lemma run_feeds_errors_back_witness :
  exists r,
    run FORBIDDEN_WORDS ALLOWED_TABLES parse_whole nat load_ok gen_drop
        (py "Remove the users table.") (py "bigscience/bloom-3b") 2
    = Return r
    /\ fed_back (py "Remove the users table.") [] [] (attempts r).
Proof.
  eexists. split; [reflexivity|].
  apply (proj1 (run_feeds_errors_back
                  FORBIDDEN_WORDS ALLOWED_TABLES parse_whole nat load_ok gen_drop
                  (py "Remove the users table.") (py "bigscience/bloom-3b") 2 _
                  eq_refl)).
Defined.

Lemma run_candidates_end_with_semicolon_witness :
  exists r,
    run FORBIDDEN_WORDS ALLOWED_TABLES parse_whole nat load_ok gen_raising
        (py "List all users.") (py "bigscience/bloom-3b") 2
    = Return r
    /\ Forall (fun a => tidy (candidate_sql a)
                        /\ ~ In msg_semicolon (errors a)) (attempts r).
Proof.
  eexists. split; [reflexivity|].
  apply (run_candidates_end_with_semicolon
           FORBIDDEN_WORDS ALLOWED_TABLES parse_whole nat load_ok gen_raising
           (py "List all users.") (py "bigscience/bloom-3b") 2 _ eq_refl).
Defined.

Lemma run_candidates_are_trimmed_witness :
  exists r,
    run FORBIDDEN_WORDS ALLOWED_TABLES parse_whole nat load_ok gen_example
        (py "List all users who placed an order.") (py "bigscience/bloom-3b") 3
    = Return r
    /\ Forall (fun a => strip (candidate a) = candidate a) (attempts r).
Proof.
  eexists. split; [reflexivity|].
  apply (run_candidates_are_trimmed
           FORBIDDEN_WORDS ALLOWED_TABLES parse_whole nat load_ok gen_example
           (py "List all users who placed an order.") (py "bigscience/bloom-3b")
           3 _ eq_refl).
Defined.

Lemma run_first_candidate_valid_witness :
  exists r,
    run FORBIDDEN_WORDS ALLOWED_TABLES parse_whole nat load_ok gen_example
        (py "List all users who placed an order.") (py "bigscience/bloom-3b") 3
    = Return r
    /\ length (attempts r) = 1
    /\ exhausted r = false.
Proof.
  destruct (run_first_candidate_valid
              FORBIDDEN_WORDS ALLOWED_TABLES parse_whole nat load_ok gen_example
              (py "List all users who placed an order.")
              (py "bigscience/bloom-3b") 3 0
              (py "SELECT u.name, u.email
   FROM Users u
   JOIN Orders o ON u.user_id = o.user_id;
") [] eq_refl ltac:(lia) eq_refl eq_refl)
    as (r & Hrun & Hlen & Hex & _).
  exists r. auto.
Defined.

(* ================================================================== *)
(** * Loading and the entry point *)

Section StartupProperties.

Variable forbidden_iter : list str.
Variable tables_iter : list str.
Variable sqlparse_parse : str -> result (list Statement).
Variable G : Type.
Variable W : Type.
Variable set_seed : W -> Z -> W * result unit.
Variable pipeline : W -> str -> W * result G.
Variable gen : G -> str -> G * result pipeline_out.
Variable print : str -> result unit.

Abbreviation load := (make_generator G W set_seed pipeline).
Abbreviation entry :=
  (main forbidden_iter tables_iter sqlparse_parse G W set_seed pipeline gen print).
Abbreviation run_loaded :=
  (fun w => run forbidden_iter tables_iter sqlparse_parse G
                (fun model_name => snd (load w model_name 42)) gen).

(** [make_generator] tries to build the pipeline at most twice: the
    first generator built is returned, and when the first try raises,
    the outcome is that of the second try. *)
Lemma make_generator_retries_once (w : W) (model_name : str) (seed : Z) (u : unit) :
  snd (set_seed w seed) = Return u ->
  let w0 := fst (set_seed w seed) in
  let w1 := fst (pipeline w0 model_name) in
  (forall g,
      snd (pipeline w0 model_name) = Return g ->
      load w model_name seed = (w1, Return g))
  /\ (forall e,
         snd (pipeline w0 model_name) = Raise e ->
         load w model_name seed = pipeline w1 model_name).
Proof.
  intros Hseed w0 w1. subst w0 w1. unfold make_generator.
  destruct (set_seed w seed) as [w0 seeded]. cbn [fst snd] in *. subst seeded.
  destruct (pipeline w0 model_name) as [w1 first]. cbn [fst snd].
  split.
  - intros g ->. reflexivity.
  - intros e ->. destruct (pipeline w1 model_name) as [w2 [g|e2]]; reflexivity.
Qed.

Lemma make_generator_raises (w : W) (model_name : str) (seed : Z) :
  (exists e, snd (load w model_name seed) = Raise e) <->
  (exists e, snd (set_seed w seed) = Raise e)
  \/ ((exists u, snd (set_seed w seed) = Return u)
      /\ (exists e1,
             snd (pipeline (fst (set_seed w seed)) model_name) = Raise e1)
      /\ (exists e2,
             snd (pipeline (fst (pipeline (fst (set_seed w seed)) model_name))
                           model_name) = Raise e2)).
Proof.
  unfold make_generator.
  destruct (set_seed w seed) as [w0 [u|e0]]; cbn [fst snd].
  - destruct (pipeline w0 model_name) as [w1 [g|e1]]; cbn [fst snd].
    + split.
      * intros [e H]. discriminate H.
      * intros [[e H] | (_ & [e1 H] & _)]; discriminate H.
    + destruct (pipeline w1 model_name) as [w2 [g|e2]]; cbn [fst snd].
      * split.
        -- intros [e H]. discriminate H.
        -- intros [[e H] | (_ & _ & [e2 H])]; discriminate H.
      * split; [|intros _; exists e2; reflexivity]. intros _. right.
        split; [exists u; reflexivity|].
        split; [exists e1 | exists e2]; reflexivity.
  - split; [|intros _; exists e0; reflexivity]. intros _. left.
    exists e0. reflexivity.
Qed.

(** X19. The generator cannot be loaded exactly when [set_seed] raises
    or building the pipeline raises twice in a row; the exit status is
    then 1 and nothing is written.  With a loaded generator [run]
    always reaches its [print], whatever the generator and the
    validator do, with a text that is empty or begins with a non-blank
    character and ends with a semicolon: when that [print] completes
    the status is 0 and the text and a newline are all that is written,
    and when it raises the status is 1. *)
Theorem main_exit_status (w : W) (args : Args) :
  ((exists e, snd (load w (arg_model args) 42) = Raise e) <->
   (exists e, snd (set_seed w 42) = Raise e)
   \/ ((exists u, snd (set_seed w 42) = Return u)
       /\ (exists e1,
              snd (pipeline (fst (set_seed w 42)) (arg_model args)) = Raise e1)
       /\ (exists e2,
              snd (pipeline (fst (pipeline (fst (set_seed w 42)) (arg_model args)))
                            (arg_model args)) = Raise e2)))
  /\ (forall e,
         snd (load w (arg_model args) 42) = Raise e -> entry w args = (1%Z, []))
  /\ (forall g,
         snd (load w (arg_model args) 42) = Return g ->
         exists r,
           run_loaded w (arg_question args) (arg_model args) (arg_retries args)
           = Return r
           /\ (output_sql r = [] \/ tidy (output_sql r))
           /\ (forall u,
                  print (output_sql r) = Return u ->
                  entry w args = (0%Z, [output_sql r ++ ["010"%char]]))
           /\ (forall e,
                  print (output_sql r) = Raise e -> entry w args = (1%Z, []))).
Proof.
  split; [apply make_generator_raises|]. split.
  - intros e He. unfold main.
    rewrite (run_raises forbidden_iter tables_iter sqlparse_parse G
               (fun model_name => snd (load w model_name 42)) gen
               (arg_question args) (arg_model args) (arg_retries args) e He).
    reflexivity.
  - intros g Hg.
    destruct (run_spec forbidden_iter tables_iter sqlparse_parse G
                (fun model_name => snd (load w model_name 42)) gen
                (arg_question args) (arg_model args) (arg_retries args) g Hg)
      as (r & _ & _ & _ & Hrun & _).
    exists r. split; [exact Hrun|]. split.
    + exact (run_output_empty_or_tidy forbidden_iter tables_iter sqlparse_parse
               G _ gen _ _ _ r Hrun).
    + unfold main. rewrite Hrun. split.
      * intros u ->. reflexivity.
      * intros e ->. reflexivity.
Qed.

End StartupProperties.

Lemma make_generator_retries_once_witness :
  make_generator nat nat seed_ok pipeline_second_try 0 (py "bigscience/bloom-3b") 42
  = (2, Return 0).
Proof.
  exact (proj2 (make_generator_retries_once nat nat seed_ok pipeline_second_try
                  0 (py "bigscience/bloom-3b") 42 tt eq_refl)
               (Exception (py "no device map")) eq_refl).
Defined.

Lemma main_exit_status_witness :
  main FORBIDDEN_WORDS ALLOWED_TABLES parse_whole nat nat seed_ok
       pipeline_failing gen_drop print_ok 0
       {| arg_question := py "List all users.";
          arg_model := py "bigscience/bloom-3b";
          arg_retries := 3 |} = (1%Z, [])
  /\ main FORBIDDEN_WORDS ALLOWED_TABLES parse_whole nat nat seed_ok
          pipeline_second_try gen_drop print_closed 0
          {| arg_question := py "List all users.";
             arg_model := py "bigscience/bloom-3b";
             arg_retries := 1 |} = (1%Z, []).
Proof.
  split.
  - apply (proj1 (proj2 (main_exit_status
                           FORBIDDEN_WORDS ALLOWED_TABLES parse_whole
                           nat nat seed_ok pipeline_failing gen_drop print_ok 0
                           {| arg_question := py "List all users.";
                              arg_model := py "bigscience/bloom-3b";
                              arg_retries := 3 |}))
                 (Exception (py "second failure"))).
    reflexivity.
  - destruct (proj2 (proj2 (main_exit_status
                              FORBIDDEN_WORDS ALLOWED_TABLES parse_whole
                              nat nat seed_ok pipeline_second_try gen_drop
                              print_closed 0
                              {| arg_question := py "List all users.";
                                 arg_model := py "bigscience/bloom-3b";
                                 arg_retries := 1 |})) 0 eq_refl)
      as (r & _ & _ & _ & Hraise).
    apply (Hraise (Exception (py "broken pipe"))). reflexivity.
Defined.

(* ================================================================== *)
(** * Extraction and validation together *)

(** X20. A candidate taken by the primary pattern never fails the
    emptiness check, the statement-count check or the termination
    check. *)
Theorem primary_candidate_checks
        (fi ti : list str) (parse : str -> result (list Statement))
        (raw m : str) (passed : bool) (errs : list str) :
  re_search_select raw = Some m ->
  validate_sql fi ti parse (extract_candidate_sql raw) = Return (passed, errs) ->
  ~ In msg_empty errs
  /\ ~ In msg_multiple errs
  /\ ~ In msg_semicolon errs.
Proof.
  intros Hm Hv.
  pose proof (re_search_select_fixed raw m Hm) as [_ Ht].
  pose proof (re_search_select_count raw m Hm) as Hcount.
  destruct (extract_candidate_sql_match raw m Hm) as [Hex _].
  rewrite Hex in Hv.
  destruct (validate_sql_cases fi ti parse m)
    as [[He _] | [_ (b & p & _ & _ & H)]].
  { rewrite (strip_tidy m Ht), (tidy_nonempty m Ht) in He. discriminate He. }
  rewrite H in Hv. injection Hv as _ <-.
  pose proof (collected_members fi ti (strip m) b p) as Hmem. cbv zeta in Hmem.
  rewrite (strip_tidy m Ht) in *.
  destruct Hmem as (Hmul & Hsemi & _ & _ & _ & _ & _ & _ & Hempty).
  split; [exact Hempty|].
  split; [rewrite Hmul, Hcount; lia|].
  rewrite Hsemi. destruct Ht as [_ Hsnoc]. apply endswith_semicolon in Hsnoc.
  rewrite Hsnoc. discriminate.
Qed.

Lemma primary_candidate_checks_witness :
  exists errs,
    validate_sql FORBIDDEN_WORDS ALLOWED_TABLES parse_whole
                 (extract_candidate_sql (py "Try this: select 1; select 2;"))
    = Return (false, errs)
    /\ ~ In msg_multiple errs.
Proof.
  assert (Hm : re_search_select (py "Try this: select 1; select 2;")
               = Some (py "select 1;")) by (vm_compute; reflexivity).
  assert (Hv : exists errs,
             validate_sql FORBIDDEN_WORDS ALLOWED_TABLES parse_whole
                          (extract_candidate_sql (py "Try this: select 1; select 2;"))
             = Return (false, errs)) by (vm_compute; eexists; reflexivity).
  destruct Hv as [errs Hv]. exists errs. split; [exact Hv|].
  apply (primary_candidate_checks
           FORBIDDEN_WORDS ALLOWED_TABLES parse_whole
           (py "Try this: select 1; select 2;") (py "select 1;") false errs Hm Hv).
Defined.

Lemma re_search_select_spaces (s : str) :
  forallb isspace s = true -> re_search_select s = None.
Proof.
  induction s as [|c s IH]; [reflexivity|].
  cbn [forallb]. intros H. apply andb_true_iff in H. destruct H as [Hc Hs].
  cbn [re_search_select].
  assert (Hno : select_match_at (c :: s) = None).
  { unfold select_match_at, py. cbn [list_ascii_of_string lower map startswith].
    destruct (Ascii.eqb_spec "s"%char (lower_char c)) as [E|]; [|reflexivity].
    rewrite <- isspace_lower_char, <- E in Hc. discriminate Hc. }
  rewrite Hno. now apply IH.
Qed.

(** X21. A raw text made of whitespace only gives the candidate [;],
    like the empty text. *)
Theorem extraction_of_blank_text (raw : str) :
  forallb isspace raw = true -> extract_candidate_sql raw = py ";".
Proof.
  intros H. rewrite extract_candidate_sql_unfold, (re_search_select_spaces raw H).
  unfold collapsed, strip. rewrite (lstrip_spaces raw H). reflexivity.
Qed.

Lemma extraction_of_blank_text_witness :
  extract_candidate_sql (py "
 	 ") = py ";".
Proof.
  apply (extraction_of_blank_text (py "
 	 ")). reflexivity.
Defined.

Section PrintedProperties.

Variable forbidden_iter : list str.
Variable tables_iter : list str.
Variable sqlparse_parse : str -> result (list Statement).
Variable G : Type.
Variable make_generator : str -> result G.
Variable gen : G -> str -> G * result pipeline_out.

(** X22. When a candidate validated and it has no match of the primary
    pattern or is its own match -- as every candidate taken by the
    primary pattern is -- the printed line is the validated candidate
    and no warning is logged. *)
Theorem run_prints_validated_statement
        (question model_name : str) (max_retries : Z) (r : RunResult) :
  run forbidden_iter tables_iter sqlparse_parse G make_generator gen
      question model_name max_retries = Return r ->
  exhausted r = false ->
  (re_search_select (final_sql r) = None
   \/ re_search_select (final_sql r) = Some (final_sql r)) ->
  output_sql r = final_sql r /\ warned r = false.
Proof.
  intros Hrun Hex Hfixed.
  destruct (run_inv forbidden_iter tables_iter sqlparse_parse G make_generator
              gen question model_name max_retries r Hrun)
    as (g & prev & final & v & _ & Hpost & Hex' & Hfin & Hout & Hv & Hw).
  destruct Hpost as (_ & _ & _ & Hfits & Hfinal).
  destruct final as [f|]; [|rewrite Hex in Hex'; discriminate Hex'].
  destruct Hfinal as (init & a & Hmade & Ha & Hf & _).
  rewrite Hmade in Hfits. apply Forall_app in Hfits. destruct Hfits as [_ Hfa].
  inversion Hfa as [|? ? (_ & Hsql & Hva) _]; subst.
  cbn [final_of] in Hfin.
  assert (Hsame : output_sql r = final_sql r).
  { rewrite Hout, Hfin, Hsql, output_of_extracted.
    apply extract_candidate_sql_twice.
    rewrite <- Hsql, <- Hfin. exact Hfixed. }
  split; [exact Hsame|].
  rewrite Hsame, Hfin, Hva in Hv. injection Hv as <-.
  rewrite Hw, Ha. reflexivity.
Qed.

End PrintedProperties.

Lemma run_prints_validated_statement_witness :
  exists r,
    run FORBIDDEN_WORDS ALLOWED_TABLES parse_whole nat load_ok gen_example
        (py "List all users who placed an order.") (py "bigscience/bloom-3b") 3
    = Return r
    /\ output_sql r = final_sql r /\ warned r = false.
Proof.
  assert (Hrun : exists r,
             run FORBIDDEN_WORDS ALLOWED_TABLES parse_whole nat load_ok gen_example
                 (py "List all users who placed an order.")
                 (py "bigscience/bloom-3b") 3 = Return r
             /\ exhausted r = false
             /\ re_search_select (final_sql r) = Some (final_sql r)).
  { vm_compute. eexists. repeat split. }
  destruct Hrun as (r & Hrun & Hex & Hfixed). exists r. split; [exact Hrun|].
  apply (run_prints_validated_statement
           FORBIDDEN_WORDS ALLOWED_TABLES parse_whole nat load_ok gen_example
           (py "List all users who placed an order.") (py "bigscience/bloom-3b")
           3 r Hrun Hex).
  right. exact Hfixed.
Defined.

(* ================================================================== *)
(** * The keyword scan beyond code points below 256 *)

Lemma wide_uchar_eqb_eq (a b : Unicode.uchar) :
  Unicode.uchar_eqb a b = true <-> a = b.
Proof.
  destruct a as [x| |], b as [y| |]; simpl; try (split; congruence).
  rewrite Ascii.eqb_eq. split; congruence.
Qed.

Lemma wide_ustr_eqb_refl (a : Unicode.ustr) : Unicode.ustr_eqb a a = true.
Proof.
  induction a as [|x a IH]; simpl; [reflexivity|].
  rewrite IH, andb_true_r. now apply wide_uchar_eqb_eq.
Qed.

Lemma wide_startswith_app (s p : Unicode.ustr) :
  Unicode.startswith s p = true <-> exists rest, s = p ++ rest.
Proof.
  revert s. induction p as [|a p IH]; intros s; simpl.
  - split; [exists s; reflexivity | reflexivity].
  - destruct s as [|b s]; simpl.
    + split; [discriminate | intros [rest H]; discriminate H].
    + rewrite andb_true_iff, wide_uchar_eqb_eq, IH. split.
      * intros [-> [rest ->]]. exists rest. reflexivity.
      * intros [rest H]. injection H as -> ->. eauto.
Qed.

Lemma wide_isword_at_last_word (kw : Unicode.ustr) (prev : option Unicode.uchar) :
  kw <> [] -> forallb Unicode.isword kw = true ->
  Unicode.isword_at (last (map Some kw) prev) = true.
Proof.
  revert prev. induction kw as [|k kw IH]; intros prev Hne Hw; [congruence|].
  simpl in Hw. apply andb_true_iff in Hw. destruct Hw as [Hk Hw].
  cbn [map]. rewrite last_cons_default.
  destruct kw as [|k' kw']; [exact Hk|].
  apply IH; [discriminate | exact Hw].
Qed.

Lemma wide_word_match_at_spec
      (kw : Unicode.ustr) (prev : option Unicode.uchar) (s : Unicode.ustr) :
  kw <> [] -> forallb Unicode.isword kw = true ->
  Unicode.word_match_at kw prev s = true <->
  Unicode.isword_at prev = false
  /\ exists post, s = kw ++ post /\ Unicode.isword_at (hd_error post) = false.
Proof.
  intros Hne Hw. unfold Unicode.word_match_at, Unicode.boundary.
  rewrite !andb_true_iff, wide_startswith_app. split.
  - intros [[Hb [post ->]] Ha].
    rewrite skipn_length_app, (wide_isword_at_last_word kw prev Hne Hw) in Ha.
    destruct kw as [|k kw']; [congruence|].
    simpl in Hw, Hb. apply andb_true_iff in Hw. destruct Hw as [Hk _].
    rewrite Hk in Hb.
    split; [now destruct (Unicode.isword_at prev)|].
    exists post. split; [reflexivity|].
    now destruct (Unicode.isword_at (hd_error post)).
  - intros [Hp (post & -> & Ha)].
    rewrite skipn_length_app, (wide_isword_at_last_word kw prev Hne Hw), Hp, Ha.
    destruct kw as [|k kw']; [congruence|].
    simpl in Hw. apply andb_true_iff in Hw. destruct Hw as [Hk _].
    simpl. rewrite Hk. eauto.
Qed.

Lemma wide_re_search_word_from_spec (kw : Unicode.ustr) :
  kw <> [] -> forallb Unicode.isword kw = true ->
  forall s prev,
    Unicode.re_search_word_from kw prev s = true <->
    exists pre post,
      s = pre ++ kw ++ post
      /\ Unicode.isword_at (last (map Some pre) prev) = false
      /\ Unicode.isword_at (hd_error post) = false.
Proof.
  intros Hne Hw. induction s as [|c s IH]; intros prev;
    cbn [Unicode.re_search_word_from];
    rewrite orb_true_iff, (wide_word_match_at_spec kw prev _ Hne Hw).
  - split.
    + intros [[Hp (post & Hs & Ha)] | H]; [|discriminate].
      exists [], post. auto.
    + intros (pre & post & Hs & Hp & Ha). left.
      destruct pre as [|x pre]; [|discriminate Hs].
      simpl in *. eauto.
  - rewrite IH. split.
    + intros [[Hp (post & Hs & Ha)] | (pre & post & Hs & Hp & Ha)].
      * exists [], post. auto.
      * exists (c :: pre), post. cbn [map]. rewrite last_cons_default.
        split; [simpl; congruence | auto].
    + intros (pre & post & Hs & Hp & Ha).
      destruct pre as [|x pre].
      * left. simpl in *. eauto.
      * right. simpl in Hs. injection Hs as -> ->.
        cbn [map] in Hp. rewrite last_cons_default in Hp.
        exists pre, post. auto.
Qed.

Lemma wide_FORBIDDEN_WORDS_are_words (kw : Unicode.ustr) :
  In kw Unicode.FORBIDDEN_WORDS -> kw <> [] /\ forallb Unicode.isword kw = true.
Proof.
  unfold Unicode.FORBIDDEN_WORDS, FORBIDDEN_WORDS. simpl.
  intros H. repeat (destruct H as [<- | H]; [split; [discriminate | reflexivity]|]).
  destruct H.
Qed.

Lemma wide_contains_forbidden_In
      (fi : list Unicode.ustr) (sql kw : Unicode.ustr) :
  Permutation fi Unicode.FORBIDDEN_WORDS ->
  In kw (Unicode.contains_forbidden fi sql) <->
  In kw Unicode.FORBIDDEN_WORDS /\ Unicode.occurs_as_word kw (Unicode.lower sql).
Proof.
  intros Hperm. unfold Unicode.contains_forbidden, Unicode.occurs_as_word,
                       Unicode.re_search_word.
  rewrite filter_In. split.
  - intros [Hin Hs].
    assert (Hkw : In kw Unicode.FORBIDDEN_WORDS) by (eapply Permutation_in; eauto).
    split; [exact Hkw|].
    destruct (wide_FORBIDDEN_WORDS_are_words kw Hkw) as [Hne Hw].
    now apply (wide_re_search_word_from_spec kw Hne Hw).
  - intros [Hkw Hocc].
    destruct (wide_FORBIDDEN_WORDS_are_words kw Hkw) as [Hne Hw]. split.
    + eapply Permutation_in; [apply Permutation_sym; exact Hperm | exact Hkw].
    + now apply (wide_re_search_word_from_spec kw Hne Hw).
Qed.

(** Every whole-word occurrence in any letter case is found by the
    search [occurs_from]. *)
Lemma wide_occurs_from_complete (kw : Unicode.ustr) (pre : Unicode.ustr) :
  forall prev mid post,
    Unicode.lower mid = kw ->
    Unicode.isword_at (last (map Some pre) prev) = false ->
    Unicode.isword_at (hd_error post) = false ->
    Unicode.occurs_from kw prev (pre ++ mid ++ post) = true.
Proof.
  induction pre as [|c pre IH]; intros prev mid post Hmid Hp Ha.
  - cbn [app]. assert (Hat : Unicode.occurs_at kw prev (mid ++ post) = true).
    { unfold Unicode.occurs_at. cbn [map last] in Hp. rewrite Hp. cbn [negb andb].
      apply existsb_exists. exists (length mid). split.
      - apply in_seq. rewrite length_app. lia.
      - rewrite firstn_app, Nat.sub_diag, firstn_all, firstn_O, app_nil_r.
        rewrite skipn_length_app, Hmid, Ha, wide_ustr_eqb_refl. reflexivity. }
    destruct (mid ++ post); cbn [Unicode.occurs_from]; rewrite Hat; reflexivity.
  - cbn [app Unicode.occurs_from]. apply orb_true_iff. right.
    cbn [map] in Hp. rewrite last_cons_default in Hp.
    now apply IH.
Qed.

(** The claim of C6 as stated fails: in [SELECT xİdrop FROM Users;] the
    keyword [drop] stands inside the longer word [xİdrop], and it is
    reported, because lowering puts a combining dot, which is not a
    word character, right before it. *)
Lemma forbidden_scan_reports_inside_word :
  In (Unicode.upy "drop")
     (Unicode.contains_forbidden Unicode.FORBIDDEN_WORDS Unicode.dotted_text)
  /\ ~ Unicode.occurs_as_whole_word (Unicode.upy "drop") Unicode.dotted_text.
Proof.
  split.
  - vm_compute. auto.
  - intros (pre & mid & post & Hs & Hmid & Hp & Ha).
    pose proof (wide_occurs_from_complete _ pre None mid post Hmid Hp Ha) as H.
    rewrite <- Hs in H. vm_compute in H. discriminate H.
Qed.

(** C6 (amended). The forbidden-keyword scan is whole-word on the
    lowered text: a keyword of the denylist is reported exactly when it
    occurs in [sql.lower()] with no word character right before or
    after it, and every such keyword is in the result.  On a text of
    code points below 256 this is the same as occurring in the text
    itself as a whole word in some letter case: [update] is reported
    for [UPDATE Users SET ...] and not for a column [updated_at]. *)
Theorem forbidden_scan_on_lowered_text
        (wide_fi : list Unicode.ustr) (fi : list str) :
  Permutation wide_fi Unicode.FORBIDDEN_WORDS ->
  Permutation fi FORBIDDEN_WORDS ->
  (forall sql kw,
      In kw (Unicode.contains_forbidden wide_fi sql) <->
      In kw Unicode.FORBIDDEN_WORDS
      /\ Unicode.occurs_as_word kw (Unicode.lower sql))
  /\ (forall sql kw,
         In kw (contains_forbidden fi sql) <->
         In kw FORBIDDEN_WORDS /\ occurs_as_word kw (lower sql))
  /\ (forall sql kw,
         In kw (contains_forbidden fi sql) <->
         In kw FORBIDDEN_WORDS /\ occurs_as_whole_word kw sql)
  /\ contains_forbidden fi (py "UPDATE Users SET name = 'x';") = [py "update"]
  /\ contains_forbidden fi (py "SELECT updated_at FROM Users;") = []
  /\ (forall ti parse,
         exists errs,
           validate_sql fi ti parse (py "UPDATE Users SET name = 'x';")
           = Return (false, errs)
           /\ In (msg_forbidden [py "update"]) errs)
  /\ (forall ti parse passed errs,
         validate_sql fi ti parse (py "SELECT updated_at FROM Users;")
         = Return (passed, errs) ->
         forall found, ~ In (msg_forbidden found) errs).
Proof.
  intros Hwide Hperm.
  split; [intros sql kw; now apply wide_contains_forbidden_In|].
  split.
  { intros sql kw. unfold contains_forbidden. rewrite filter_In. split.
    - intros [Hin Hs].
      assert (Hkw : In kw FORBIDDEN_WORDS) by (eapply Permutation_in; eauto).
      split; [exact Hkw|].
      destruct (FORBIDDEN_WORDS_are_words kw Hkw) as [Hne Hw].
      now apply re_search_word_spec.
    - intros [Hkw Hocc].
      destruct (FORBIDDEN_WORDS_are_words kw Hkw) as [Hne Hw]. split.
      + eapply Permutation_in; [apply Permutation_sym; exact Hperm | exact Hkw].
      + now apply re_search_word_spec. }
  split; [intros sql kw; now apply contains_forbidden_In|].
  assert (Hupdate :
            contains_forbidden fi (py "UPDATE Users SET name = 'x';") = [py "update"]).
  { apply Permutation_length_1_inv.
    apply (contains_forbidden_order fi (py "UPDATE Users SET name = 'x';") Hperm). }
  assert (Hcolumn : contains_forbidden fi (py "SELECT updated_at FROM Users;") = []).
  { apply Permutation_nil.
    apply (contains_forbidden_order fi (py "SELECT updated_at FROM Users;") Hperm). }
  split; [exact Hupdate|]. split; [exact Hcolumn|]. split.
  - intros ti parse. rewrite <- Hupdate.
    apply (validate_sql_reports_forbidden fi ti parse
             (py "UPDATE Users SET name = 'x';")).
    + change (strip (py "UPDATE Users SET name = 'x';"))
        with (py "UPDATE Users SET name = 'x';").
      rewrite Hupdate. discriminate.
    + reflexivity.
  - intros ti parse passed errs Hv.
    apply (validate_sql_no_forbidden fi ti parse
             (py "SELECT updated_at FROM Users;") passed errs); [|exact Hv].
    exact Hcolumn.
Qed.

Lemma forbidden_scan_on_lowered_text_witness :
  In (Unicode.upy "drop")
     (Unicode.contains_forbidden Unicode.FORBIDDEN_WORDS Unicode.dotted_text)
  /\ In (py "delete")
        (contains_forbidden FORBIDDEN_WORDS (py "Drop TABLE a; DELETE FROM b")).
Proof.
  pose proof (forbidden_scan_on_lowered_text
                Unicode.FORBIDDEN_WORDS FORBIDDEN_WORDS
                (Permutation_refl _) (Permutation_refl _))
    as (Hwide & _ & Hlatin & _).
  split.
  - apply Hwide. split; [vm_compute; auto|].
    exists (Unicode.upy "select xi" ++ [Unicode.CombiningDot]),
           (Unicode.upy " from users;").
    repeat split; reflexivity.
  - apply Hlatin. split; [simpl; auto 12|].
    exists (py "Drop TABLE a; "), (py "DELETE"), (py " FROM b").
    repeat split; reflexivity.
Defined.
